(** * pinefile: task resolution and execution engine

    A shallow embedding of the task runner of [@pinefile/pine]
    ([validTaskValue], [resolveTask], [getFnName], [doneify], [execute]
    and [runTask]) together with the properties its specification states.

    Modelling conventions.

    - JavaScript values that can live in a pinefile are the inductive
      [val]; objects are references into a [heap], so that the assignment
      [task.default = task.default._] of [resolveTask] is a visible update
      of the shared namespace.  Property access is own-property access
      on objects: keys naming members inherited from built-in prototypes
      ([constructor], [toString], ...), the [length] and index properties
      of strings and functions, and arrays are outside the model.
    - The code of a user function is not JavaScript source but a
      [fundef]: its declared parameter count, what a call with given
      arguments returns or throws, and how it uses a completion callback
      when it is invoked with one.  User functions are determined by
      their arguments, do not write to the heap and do not call back into
      the engine.
    - Promises are represented by the way they settle ([settle]); an
      [await] takes that settlement.  A call of an [async] function whose
      promise is not awaited (the [done()] of the task wrapper and of
      [doneify]) is recorded as an [EvDone _ false body] node: [body] is
      in program order, and the caller goes on whatever [body] settles
      to (what the host does with the rejection of such a promise is
      outside the model).
    - Logging is recorded as events; colours and durations are left out.
    - Recursion through hooks need not terminate (a cyclic namespace can
      resolve ever longer hook names), hence [execute] takes fuel. *)

From Stdlib Require Import Ascii.
From stdpp Require Import base strings gmap list fin_maps.

Open Scope string_scope.
Open Scope list_scope.

(* ------------------------------------------------------------------ *)
(** ** Values *)

Abbreviation loc := positive (only parsing).
Abbreviation fid := string (only parsing).

Inductive val : Type :=
  | VUndef
  | VNull
  | VBool (b : bool)
  | VNum (z : Z)
  | VStr (s : string)
  | VFun (f : fid)
  | VObj (l : loc).

Abbreviation obj := (gmap string val) (only parsing).
Abbreviation heap := (gmap positive (gmap string val)) (only parsing).

(** Anything a [throw] or a rejection can carry: [new Error(msg)] or a
    plain value. *)
Inductive exn : Type :=
  | ExnError (msg : string)
  | ExnValue (v : val).

(** How a promise settles. *)
Inductive settle : Type :=
  | Fulfilled (v : val)
  | RejectedWith (e : exn)
  | NeverSettles.

(** What a call of a user function gives back. *)
Inductive ret : Type :=
  | RetVal (v : val)
  | RetPromise (p : settle)
  | RetThrow (e : exn).

(** [typeof v] *)
Definition typeof (v : val) : string :=
  match v with
  | VUndef => "undefined"
  | VNull => "object"
  | VBool _ => "boolean"
  | VNum _ => "number"
  | VStr _ => "string"
  | VFun _ => "function"
  | VObj _ => "object"
  end.

(** [typeof v === 'function'] *)
Definition is_function (v : val) : bool :=
  match v with VFun _ => true | _ => false end.

(** JavaScript truthiness, [!!v]. *)
Definition truthy (v : val) : bool :=
  match v with
  | VUndef | VNull => false
  | VBool b => b
  | VNum z => negb (Z.eqb z 0)
  | VStr s => negb (String.eqb s "")
  | VFun _ | VObj _ => true
  end.

Definition truthy_exn (e : exn) : bool :=
  match e with
  | ExnError _ => true
  | ExnValue v => truthy v
  end.

(** Modelled from the spec: [isObject] of [@pinefile/utils] is not part of
    the sources; the specification calls the values it accepts mappings. *)
Definition isObject (v : val) : bool :=
  match v with VObj _ => true | _ => false end.

(** [v[k]] *)
Definition get_prop (h : heap) (v : val) (k : string) : val :=
  match v with
  | VObj l =>
      match h !! l with
      | Some o => default VUndef (o !! k)
      | None => VUndef
      end
  | _ => VUndef
  end.

(** [v[k] = x] *)
Definition set_prop (h : heap) (v : val) (k : string) (x : val) : heap :=
  match v with
  | VObj l => alter (fun o : gmap string val => <[k := x]> o) l h
  | _ => h
  end.

(** [Object.keys(v).length] *)
Definition keys_length (h : heap) (v : val) : nat :=
  match v with
  | VObj l => match h !! l with Some o => size o | None => 0 end
  | _ => 0
  end.

(* ------------------------------------------------------------------ *)
(** ** Strings: [split] and [join] *)

Fixpoint chars (s : string) : list string :=
  match s with
  | EmptyString => []
  | String c s' => String c EmptyString :: chars s'
  end.

(** [split_go sep skip cur s]: [cur] is the segment read so far and
    [skip] the number of characters of a separator still to be passed. *)
Fixpoint split_go (sep : string) (skip : nat) (cur s : string) : list string :=
  match s with
  | EmptyString => [cur]
  | String c s' =>
      match skip with
      | S k => split_go sep k cur s'
      | O =>
          if String.prefix sep s
          then cur :: split_go sep (String.length sep - 1) "" s'
          else split_go sep 0 (cur +:+ String c EmptyString) s'
      end
  end.

(** [s.split(sep)] *)
Definition split (s sep : string) : list string :=
  match sep with
  | EmptyString => chars s
  | _ => split_go sep 0 "" s
  end.

(** The character [c] does not occur in [s]. *)
Fixpoint free_of (c : Ascii.ascii) (s : string) : bool :=
  match s with
  | EmptyString => true
  | String a s' => negb (Ascii.eqb c a) && free_of c s'
  end.

(** [l.join(sep)] *)
Fixpoint join (sep : string) (l : list string) : string :=
  match l with
  | [] => ""
  | [x] => x
  | x :: rest => x +:+ sep +:+ join sep rest
  end.

(* ------------------------------------------------------------------ *)
(** ** Task values and resolution *)

(** [validTaskValue] *)
Definition validTaskValue (h : heap) (v : val) : bool :=
  is_function v
  || (isObject v
      && negb (Nat.eqb (keys_length h v) 0)
      && (String.eqb (typeof (get_prop h v "_")) "undefined"
          || is_function (get_prop h v "_"))).

(** The [key] argument of [resolveTask]: a string, or an array of
    segments. *)
Inductive key : Type :=
  | KStr (s : string)
  | KArr (segs : list string).

(** [!key] *)
Definition key_falsy (k : key) : bool :=
  match k with
  | KStr s => String.eqb s ""
  | KArr _ => false
  end.

(** [properties.reduce((prev, cur) => prev[cur] || false, obj)] *)
Definition walk (h : heap) (obj : val) (properties : list string) : val :=
  fold_left
    (fun prev cur =>
       let v := get_prop h prev cur in
       if truthy v then v else VBool false)
    properties obj.

(** [resolveTask]: the value returned and the heap after the call. *)
Definition resolveTask (h : heap) (obj : val) (k : key) (sep : string)
  : val * heap :=
  if key_falsy k then (VBool false, h)
  else
    let properties :=
      match k with KArr segs => segs | KStr s => split s sep end in
    let task := walk h obj properties in
    if negb (isObject task) && negb (validTaskValue h task)
    then (VBool false, h)
    else if isObject task && truthy (get_prop h task "_")
    then (get_prop h task "_", h)
    else if isObject (get_prop h task "default")
    then (task,
          set_prop h task "default"
            (get_prop h (get_prop h task "default") "_"))
    else (task, h).

(** [names.pop()] then the template string. *)
Definition prefixed_last (prefix : string) (names : list string) : string :=
  match last names with
  | Some lastName => prefix +:+ lastName
  | None => prefix +:+ "undefined"
  end.

(** [getFnName] *)
Definition getFnName (name prefix sep : string) : string :=
  let names := split name sep in
  join sep (removelast names ++ [prefixed_last prefix names]).

(* ------------------------------------------------------------------ *)
(** ** User functions, events and results *)

(** One use of the completion callback by a runner: the argument it is
    called with ([ExnValue VUndef] for [done()]) and whether the runner
    awaits the promise the callback returns. *)
Record done_use : Type := DoneUse { du_err : exn; du_awaited : bool }.

(** The code of a user function. *)
Record fundef : Type := FunDef {
  (** [f.length], the declared parameter count *)
  fn_length : nat;
  (** [f(...args)] with value arguments *)
  fn_call : list val -> ret;
  (** [f(done)]: the uses of the completion callback, in order, and what
      the call gives back afterwards *)
  fn_run : list done_use * ret
}.

#[warnings="-register-all"]
Inductive event : Type :=
  (** [log.error(`Task '${name}' not found`)] *)
  | EvNotFound (name : string)
  (** [log.info(`Starting '${name}'`)] *)
  | EvStarting (name : string)
  (** [log.info(`Finished '${name}' after ...`)] *)
  | EvFinished (name : string)
  (** [log.error(err)] *)
  | EvLogError (e : exn)
  (** a user function called with value arguments *)
  | EvCall (f : fid) (args : list val)
  (** a user function called with the completion callback *)
  | EvRun (f : fid)
  (** the completion callback called with [e]; [body] is what it does *)
  | EvDone (e : exn) (awaited : bool) (body : list event).

(** How the promise of an [async] function settles. *)
Inductive completion : Type :=
  | Resolved
  | Rejected (e : exn)
  | Pending.

(** Settlement, events and final heap; [None] is reserved for fuel. *)
Abbreviation result := (completion * list event * gmap positive (gmap string val))%type (only parsing).

(** The process-wide configuration as [getRunner(getConfig())] returns
    it: [getRunner] is not part of the sources, its result
    [{ runner, options }] is a parameter of the engine. *)
Record config : Type := Config { cfg_runner : val; cfg_options : val }.

(** [await r; ...] for the value a call gave back, seen from an [async]
    function without a handler. *)
Definition completion_of_ret (r : ret) : completion :=
  match r with
  | RetVal _ => Resolved
  | RetPromise (Fulfilled _) => Resolved
  | RetPromise (RejectedWith e) => Rejected e
  | RetPromise NeverSettles => Pending
  | RetThrow e => Rejected e
  end.

(** Events in program order, callback bodies inlined after their node. *)
Fixpoint flatten_event (ev : event) : list event :=
  match ev with
  | EvDone e a body => EvDone e a [] :: flat_map flatten_event body
  | _ => [ev]
  end.

Definition flatten (tr : list event) : list event :=
  flat_map flatten_event tr.

(** The user functions called with value arguments, in program order. *)
Definition calls (tr : list event) : list (fid * list val) :=
  omap (fun ev => match ev with EvCall f args => Some (f, args) | _ => None end)
       (flatten tr).


(** The outcome of runner selection. *)
Record selection : Type := Selection {
  sel_fn : val;
  sel_fnName : string;
  sel_found : bool
}.

(** The [runner] variable of [execute] after the dispatch on [fn.length]. *)
Inductive runner : Type :=
  (** the value a 3- or 4-parameter function returned *)
  | RunVal (v : val)
  (** the promise a 3- or 4-parameter function returned *)
  | RunPromise (p : settle)
  (** the wrapper [async (done) => { ... pify(fn)(args) ... }] *)
  | RunTask (fn : val).

(** [if (err) log.error(err)] *)
Definition logged (err : exn) : list event :=
  if truthy_exn err then [EvLogError err] else [].

Definition prepend (tr : list event) (r : option result) : option result :=
  match r with
  | Some (c, tr', h) => Some (c, tr ++ tr', h)
  | None => None
  end.

(** [runner === null ? 'null' : typeof runner], line 186 *)
Definition before_type (v : val) : string :=
  match v with VNull => "null" | _ => typeof v end.

(** The error of the thrower of lines 187-191, which replaces a runner
    that is not a function. *)
Definition invalid_runner (v : val) : exn :=
  ExnError ("Expected return value of runner function to be a function, got "
            +:+ before_type v).

(* ------------------------------------------------------------------ *)
(** ** The execution engine *)

Section Engine.

(** the code of the functions *)
Variable F : fid -> fundef.
(** [getRunner(getConfig())] *)
Variable cfg : config.
(** the arguments of [execute] that every recursive call passes on *)
Variable pinefile : val.
Variable args : val.

(** [fn(...xs)] *)
Definition call (fn : val) (xs : list val) : list event * ret :=
  match fn with
  | VFun f => ([EvCall f xs], fn_call (F f) xs)
  | _ => ([], RetThrow (ExnError "fn is not a function"))
  end.

(** [fn.length] *)
Definition declared_length (fn : val) : option nat :=
  match fn with
  | VFun f => Some (fn_length (F f))
  | VStr s => Some (String.length s)
  | _ => None
  end.

(** Lines 101-125: which function runs, under which name, and whether
    one was found.  [fn0] is [resolveTask(pinefile, name)]. *)
Definition select (h : heap) (fn0 : val) (name : string)
  : list event * (exn + selection) :=
  let runner := cfg_runner cfg in
  let options := cfg_options cfg in
  let chosen : list event * (exn + (val * bool)) :=
    if is_function runner then ([], inr (runner, true))
    else if isObject runner && is_function (get_prop h runner "default")
    then
      let fn := get_prop h runner "default" in
      if is_function (get_prop h runner "taskExists")
      then
        let '(tr, r) :=
          call (get_prop h runner "taskExists")
               [pinefile; VStr name; args; options] in
        match r with
        | RetVal v => (tr, inr (fn, truthy v))
        | RetPromise _ => (tr, inr (fn, true))
        | RetThrow e => (tr, inl e)
        end
      else ([], inr (fn, is_function fn))
    else if is_function fn0 then ([], inr (fn0, true))
    else ([], inr (fn0, false)) in
  match chosen with
  | (tr, inl e) => (tr, inl e)
  | (tr, inr (fn, fnExists)) =>
      if isObject fn && truthy (get_prop h fn "default")
      then (tr, inr {| sel_fn := get_prop h fn "default";
                       sel_fnName :=
                         if negb (String.eqb name "default")
                         then name +:+ ":default" else "default";
                       sel_found := is_function (get_prop h fn "default") |})
      else (tr, inr {| sel_fn := fn; sel_fnName := name;
                       sel_found := fnExists |})
  end.

Definition produced (c : list event * ret) : list event * (exn + runner) :=
  match c with
  | (tr, RetVal v) => (tr, inr (RunVal v))
  | (tr, RetPromise p) => (tr, inr (RunPromise p))
  | (tr, RetThrow e) => (tr, inl e)
  end.

(** Lines 133-167: [switch (fn.length)].  Past the gate [fn] is a
    function; the other cases of [declared_length] and [call] are there
    for the sake of the translation only. *)
Definition dispatch (h : heap) (fn : val) (name : string)
  : list event * (exn + runner) :=
  let options := cfg_options cfg in
  match declared_length fn with
  | Some 4 =>
      if isObject options && negb (Nat.eqb (keys_length h options) 0)
      then produced (call fn [pinefile; VStr name; args; options])
      else produced (call fn [pinefile; VStr name; args])
  | Some 3 => produced (call fn [pinefile; VStr name; args])
  | _ => ([], inr (RunTask fn))
  end.

(** The [try] block of the wrapper of lines 148-165, up to the value
    that is awaited: [pify(fn, { excludeMain: true })] of a function
    calls it as it is, of an object it is an object, and of anything
    else it throws. *)
Definition task_body (fn : val) : list event * ret :=
  match fn with
  | VFun _ => call fn [args]
  | VObj _ =>
      ([], RetThrow
             (ExnError "Expected task function to be a function, got object"))
  | _ =>
      ([], RetThrow
             (ExnError
                ("Expected `input` to be a `Function` or `Object`, got `"
                 +:+ (match fn with VNull => "null" | _ => typeof fn end)
                 +:+ "`")))
  end.

Section Callback.

(** the recursive call [execute(pinefile, _, args)] *)
Variable exec : heap -> string -> option result.
Variable name fnName : string.

(** Lines 212-217: the post-hook. *)
Definition post_hook (h : heap) : option result :=
  let postName := getFnName fnName "post" ":" in
  let '(postFunc, h') := resolveTask h pinefile (KStr postName) ":" in
  if truthy postFunc then exec h' postName else Some (Resolved, [], h').

(** Lines 201-218: the completion callback. *)
Definition callback (h : heap) (err : exn) : option result :=
  prepend (logged err ++ [EvFinished name]) (post_hook h).

(** [done(err)] without [await]: the events of the callback are kept,
    what its promise settles to is dropped. *)
Definition float_done (h : heap) (err : exn) : option result :=
  match callback h err with
  | Some (_, body, h') => Some (Resolved, [EvDone err false body], h')
  | None => None
  end.

(** [try { await r; done(); } catch (err) { done(err); }] *)
Definition settle_then_done (h : heap) (r : ret) : option result :=
  match r with
  | RetVal _ | RetPromise (Fulfilled _) => float_done h (ExnValue VUndef)
  | RetPromise (RejectedWith e) | RetThrow e => float_done h e
  | RetPromise NeverSettles => Some (Pending, [], h)
  end.

(** A user runner working through its uses of the callback. *)
Fixpoint run_dones (h : heap) (uses : list done_use) (final : ret)
  : option result :=
  match uses with
  | [] => Some (completion_of_ret final, [], h)
  | DoneUse e awaited :: rest =>
      match callback h e with
      | None => None
      | Some (c, body, h') =>
          if awaited
          then match c with
               | Resolved =>
                   prepend [EvDone e true body] (run_dones h' rest final)
               | _ => Some (c, [EvDone e true body], h')
               end
          else prepend [EvDone e false body] (run_dones h' rest final)
      end
  end.

(** [await runner(callback)] for the wrapper of lines 148-165. *)
Definition invoke_task (h : heap) (fn : val) : option result :=
  let '(tr, x) := task_body fn in
  prepend tr (settle_then_done h x).

(** Lines 184-218 for a runner that is not (or no longer) a promise:
    the replacement of a non-function by a thrower, [doneify] for
    runners without parameters, and [await runner(callback)].  [doneify]
    passes the runner the empty array of its rest parameter, which a
    function without parameters does not bind: the call is recorded
    without arguments. *)
Definition invoke_value (h : heap) (v : val) : option result :=
  match v with
  | VFun f =>
      if Nat.eqb (fn_length (F f)) 0
      then prepend [EvCall f []] (settle_then_done h (fn_call (F f) []))
      else prepend [EvRun f]
             (run_dones h (fst (fn_run (F f))) (snd (fn_run (F f))))
  | _ => settle_then_done h (RetThrow (invalid_runner v))
  end.

(** Lines 179-218: [if (runner instanceof Promise) runner = await
    runner], then the above. *)
Definition invoke (h : heap) (r : runner) : option result :=
  match r with
  | RunTask fn => invoke_task h fn
  | RunVal v => invoke_value h v
  | RunPromise (Fulfilled v) => invoke_value h v
  | RunPromise (RejectedWith e) => Some (Rejected e, [], h)
  | RunPromise NeverSettles => Some (Pending, [], h)
  end.

End Callback.

(** Lines 169-174: the pre-hook. *)
Definition pre_hook (exec : heap -> string -> option result)
  (h : heap) (fnName : string) : option result :=
  let preName := getFnName fnName "pre" ":" in
  let '(preFunc, h') := resolveTask h pinefile (KStr preName) ":" in
  if truthy preFunc then exec h' preName else Some (Resolved, [], h').

(** Lines 133-218: what [execute] does once a function is found. *)
Definition run_found (exec : heap -> string -> option result)
  (h : heap) (name : string) (s : selection) : option result :=
  match dispatch h (sel_fn s) name with
  | (tr_d, inl e) => Some (Rejected e, tr_d, h)
  | (tr_d, inr r) =>
      match pre_hook exec h (sel_fnName s) with
      | None => None
      | Some (Resolved, tr_pre, h') =>
          prepend (tr_d ++ tr_pre ++ [EvStarting name])
            (invoke exec name (sel_fnName s) h' r)
      | Some (c, tr_pre, h') => Some (c, tr_d ++ tr_pre, h')
      end
  end.

(** [execute] *)
Fixpoint execute (fuel : nat) (h : heap) (name : string) : option result :=
  match fuel with
  | O => None
  | S n =>
      let '(fn0, h1) := resolveTask h pinefile (KStr name) ":" in
      match select h1 fn0 name with
      | (tr, inl e) => Some (Rejected e, tr, h1)
      | (tr, inr s) =>
          if negb (sel_found s)
          then Some (Resolved, tr ++ [EvNotFound name], h1)
          else prepend tr (run_found (execute n) h1 name s)
      end
  end.

End Engine.

(** The default value [{}] of the parameter [args] of [runTask]: a fresh
    empty object when the caller passes none. *)
Definition args_or_empty (h : heap) (args : val) : val * heap :=
  match args with
  | VUndef => let l := fresh (dom h) in (VObj l, <[l := ∅]> h)
  | _ => (args, h)
  end.

(** [runTask] *)
Definition runTask (F : fid -> fundef) (cfg : config) (fuel : nat)
  (h : heap) (pinefile : val) (name : string) (args : val) : option result :=
  let '(args', h') := args_or_empty h args in
  execute F cfg pinefile args' fuel h' name.

(* ------------------------------------------------------------------ *)
(** ** Notions used in the statements, and example namespaces *)

(** The segments [resolveTask] walks through. *)
Definition segments (k : key) (sep : string) : list string :=
  match k with KArr segs => segs | KStr s => split s sep end.


(** Every object of [h] is still there in [h'], with the same value under
    every key other than [default]. *)
Definition keeps_other_keys (h h' : heap) : Prop :=
  forall (l : loc) (o : gmap string val),
    h !! l = Some o ->
    exists o' : gmap string val,
      h' !! l = Some o' /\ forall k, k <> "default" -> o' !! k = o !! k.

(** A namespace whose task [a] has a nested default with a [_] entry:
    [{ a: { default: { _: g } } }], and an argument bag. *)
Definition ns_nested_default : gmap positive (gmap string val) :=
  {[ 1%positive := {[ "a" := VObj 2 ]};
     2%positive := {[ "default" := VObj 3 ]};
     3%positive := {[ "_" := VFun "g" ]};
     4%positive := ∅ ]}.

Definition plain_functions (f : fid) : fundef :=
  FunDef 1 (fun _ => RetVal VUndef) ([], RetVal VUndef).




(** What the wrappers pass to the completion callback for the value a
    call gave back: the error thrown or rejected with, [undefined] when
    there is none. *)
Definition delivered (r : ret) : exn :=
  match r with
  | RetThrow e | RetPromise (RejectedWith e) => e
  | _ => ExnValue VUndef
  end.

(** The value returned, or the promise returned, settles. *)
Definition settles (r : ret) : bool :=
  match r with RetPromise NeverSettles => false | _ => true end.

(** Some user functions for the examples: plain tasks that succeed or
    fail, plugins (three parameters) that return a runner, return
    something else or throw, runners without parameters, the custom
    runner of [test/runner.test.ts], and a runner that takes the
    completion callback and awaits it. *)
Definition example_functions (f : fid) : fundef :=
  if String.eqb f "fails"
  then FunDef 1 (fun _ => RetThrow (ExnError "boom")) ([], RetVal VUndef)
  else if String.eqb f "rejects_with_nothing"
  then FunDef 1 (fun _ => RetPromise (RejectedWith (ExnValue VUndef)))
         ([], RetVal VUndef)
  else if String.eqb f "plugin"
  then FunDef 3 (fun _ => RetVal (VFun "runner0")) ([], RetVal VUndef)
  else if String.eqb f "plugin_throws"
  then FunDef 3 (fun _ => RetThrow (ExnError "boom")) ([], RetVal VUndef)
  else if String.eqb f "plugin_null"
  then FunDef 3 (fun _ => RetVal VNull) ([], RetVal VUndef)
  else if String.eqb f "plugin_promises_number"
  then FunDef 4 (fun _ => RetPromise (Fulfilled (VNum 7))) ([], RetVal VUndef)
  else if String.eqb f "runner0"
  then FunDef 0 (fun _ => RetVal VUndef) ([], RetVal VUndef)
  else if String.eqb f "custom_runner"
  then FunDef 3 (fun _ => RetPromise (Fulfilled (VFun "inner")))
         ([], RetVal VUndef)
  else if String.eqb f "inner"
  then FunDef 0 (fun _ => RetPromise (Fulfilled VUndef)) ([], RetVal VUndef)
  else if String.eqb f "plugin_callback"
  then FunDef 3 (fun _ => RetVal (VFun "callback_runner")) ([], RetVal VUndef)
  else if String.eqb f "callback_runner"
  then FunDef 1 (fun _ => RetVal VUndef)
         ([DoneUse (ExnValue VUndef) true], RetPromise (Fulfilled VUndef))
  else FunDef 1 (fun _ => RetVal VUndef) ([], RetVal VUndef).

(** [{ build: fn1, prebuild: fn2, postbuild: fn3 }] and the argument bag
    [{ x: 1 }]. *)
Definition ns_build : gmap positive (gmap string val) :=
  {[ 1%positive := {[ "build" := VFun "fn1"; "prebuild" := VFun "fn2";
                      "postbuild" := VFun "fn3" ]};
     2%positive := {[ "x" := VNum 1 ]} ]}.

(** [{ build: _, prebuild: fn2, postbuild: fn3 }] with a given function
    as [build]. *)
Definition ns_build_with (f : fid) : gmap positive (gmap string val) :=
  {[ 1%positive := {[ "build" := VFun f; "prebuild" := VFun "fn2";
                      "postbuild" := VFun "fn3" ]};
     2%positive := {[ "x" := VNum 1 ]} ]}.

Definition is_finished (name : string) (ev : event) : bool :=
  match ev with EvFinished n => String.eqb n name | _ => false end.

Definition is_starting (name : string) (ev : event) : bool :=
  match ev with EvStarting n => String.eqb n name | _ => false end.

(** The completion callback that logs the finish of [name] is over before
    [post] starts: its node in the trace is followed, outside of it, by the
    start of [post]. *)
Fixpoint starts_after_callback (name post : string) (tr : list event) : bool :=
  match tr with
  | [] => false
  | EvDone _ _ body :: rest =>
      existsb (is_finished name) body
      && existsb (is_starting post) (flatten rest)
      || starts_after_callback name post rest
  | _ :: rest => starts_after_callback name post rest
  end.

(** [post] starts while the completion callback that logs the finish of
    [name] is running: the start of [post] is inside its node. *)
Fixpoint starts_inside_callback (name post : string) (tr : list event) : bool :=
  match tr with
  | [] => false
  | EvDone _ _ body :: rest =>
      existsb (is_finished name) body
      && existsb (is_starting post) (flatten body)
      || starts_inside_callback name post rest
  | _ :: rest => starts_inside_callback name post rest
  end.

(** The pinefile of [test/runner.test.ts] as [parsePineFile] hands it on,
    [{ test: { _: task } }], and the argument bag [{ name: "test" }]. *)
Definition ns_test : gmap positive (gmap string val) :=
  {[ 1%positive := {[ "test" := VObj 3 ]};
     2%positive := {[ "name" := VStr "test" ]};
     3%positive := {[ "_" := VFun "task" ]} ]}.

(** A cyclic namespace: [a = { default: task }] with [a.predefault = a]. *)
Definition ns_cyclic : gmap positive (gmap string val) :=
  {[ 1%positive := {[ "a" := VObj 2 ]};
     2%positive := {[ "default" := VFun "task"; "predefault" := VObj 2 ]} ]}.

(** The names of the hooks it resolves: [a], [a:predefault],
    [a:predefault:predefault], ... *)
Fixpoint cyclic_name (k : nat) : string :=
  match k with
  | O => "a"
  | S k' => cyclic_name k' +:+ ":predefault"
  end.

(* ------------------------------------------------------------------ *)
(** ** Further notions used in the statements *)



(** The argument lists the engine calls a user function with: the
    argument bag alone (a task), nothing (a runner without parameters), or
    the namespace, a task name and the argument bag, with or without the
    configured options (a plugin, a runner, [taskExists]). *)
Definition engine_arguments (cfg : config) (pinefile args : val)
  (xs : list val) : Prop :=
  xs = [args]
  \/ xs = []
  \/ exists name : string,
       xs = [pinefile; VStr name; args]
       \/ xs = [pinefile; VStr name; args; cfg_options cfg].



(** Runners for the examples: one without parameters that rejects, and
    one that takes the completion callback and throws without calling
    it; and the plugins that return them. *)
Definition runner_functions (f : fid) : fundef :=
  if String.eqb f "plugin_rejecting"
  then FunDef 3 (fun _ => RetVal (VFun "rejecting_runner")) ([], RetVal VUndef)
  else if String.eqb f "rejecting_runner"
  then FunDef 0 (fun _ => RetPromise (RejectedWith (ExnError "boom")))
         ([], RetVal VUndef)
  else if String.eqb f "plugin_silent"
  then FunDef 3 (fun _ => RetVal (VFun "silent_runner")) ([], RetVal VUndef)
  else if String.eqb f "silent_runner"
  then FunDef 1 (fun _ => RetVal VUndef) ([], RetThrow (ExnError "boom"))
  else if String.eqb f "plugin_broken_promise"
  then FunDef 3 (fun _ => RetPromise (RejectedWith (ExnError "boom")))
         ([], RetVal VUndef)
  else FunDef 1 (fun _ => RetVal VUndef) ([], RetVal VUndef).

(** Every call of a user function in the trace has arguments of one of
    the shapes of [engine_arguments]. *)
Definition calls_ok (cfg : config) (pinefile args : val) (tr : list event)
  : Prop :=
  Forall (fun c : fid * list val => engine_arguments cfg pinefile args (snd c))
         (calls tr).

(* ------------------------------------------------------------------ *)
(** ** The configuration store ([config], [loadDotenv], [setEnvironment],
       [getConfig], [configure])

    The declaration of [ConfigType] is not part of the sources.  The
    fields the code reads are modelled with their types: [dotenv], an
    array of file names in which [delete] leaves holes, or something that
    is not an array; [env], a mapping from names to values in the order
    [for ... in] enumerates it, or something that is not a mapping;
    [path], a string.  Every other field ([options], [runner], ...) is a
    value under its key.  [process.env] is a finite map from names to
    values, names being told apart by case.  The array of [dotenv] is
    shared by the configurations it passes through; only the current
    configuration is looked at here. *)

Module ConfigStore.

Inductive dotenv_field : Type :=
  | DotenvArray (files : list (option string))
  | DotenvOther.

Inductive env_field : Type :=
  | EnvObject (entries : list (string * string))
  | EnvOther.

(** [ConfigType] *)
Record t : Type := Make {
  dotenv : dotenv_field;
  env : env_field;
  path : string;
  others : gmap string val
}.

(** [Partial<ConfigType>]: the fields an object passed to [configure]
    has. *)
Record partial : Type := Partial {
  new_dotenv : option dotenv_field;
  new_env : option env_field;
  new_path : option string;
  new_others : gmap string val
}.

(** The argument of [configure]: an object, a function of the current
    configuration (which returns an object, or something else), or
    anything else. *)
Inductive argument : Type :=
  | ArgObject (p : partial)
  | ArgFunction (f : t -> option partial)
  | ArgOther.

(** The value of the module variable [config] when the module is loaded,
    [{ dotenv: [], env: {}, options: {}, path: '' }]; [options] is the
    reference of its empty object. *)
Definition initial (options : val) : t :=
  {| dotenv := DotenvArray []; env := EnvObject []; path := "";
     others := {[ "options" := options ]} |}.

(** [{ ...config, ...newConfig }] *)
Definition merge (c : t) (p : partial) : t :=
  {| dotenv := default (dotenv c) (new_dotenv p);
     env := default (env c) (new_env p);
     path := default (path c) (new_path p);
     others := new_others p ∪ others c |}.

(** The first two statements of [configure]: a function is applied to
    the current configuration, and what there is then is spread over the
    current configuration if it is an object. *)
Definition merged (newConfig : argument) (c : t) : t :=
  let newConfig' :=
    match newConfig with
    | ArgFunction f => f c
    | ArgObject p => Some p
    | ArgOther => None
    end in
  match newConfig' with
  | Some p => merge c p
  | None => c
  end.

(** The argument leaves the field [dotenv] as it is. *)
Definition keeps_dotenv (newConfig : argument) : Prop :=
  match newConfig with
  | ArgObject p => new_dotenv p = None
  | ArgFunction f => forall c p, f c = Some p -> new_dotenv p = None
  | ArgOther => True
  end.

(** What [configure] does: it throws, or it returns the configuration;
    either way the module variable and [process.env] are left in some
    state, and some files have been handed to [dotenv.config]. *)
Inductive outcome : Type :=
  | Throws (msg : string)
  | Returns (c : t).

Record state : Type := State {
  config : t;
  process_env : gmap string string
}.

Section WithLibraries.

(** [path.join], the effect of [dotenv.config({ path })] on [process.env]
    and [String.prototype.toUpperCase] belong to the platform. *)
Variable path_join : string -> string -> string.
Variable dotenv_config : string -> gmap string string -> gmap string string.
Variable toUpperCase : string -> string.

(** The files [forEach] visits, joined with the path: holes are skipped. *)
Definition files_to_load (c : t) : list string :=
  match dotenv c with
  | DotenvArray files => omap (fun file => path_join (path c) <$> file) files
  | DotenvOther => []
  end.

(** [loadDotenv]: an error, or the configuration with every visited
    entry deleted, [process.env] after the loads and the files loaded. *)
Definition loadDotenv (c : t) (penv : gmap string string)
  : string + (t * gmap string string * list string) :=
  match dotenv c with
  | DotenvOther => inr (c, penv, [])
  | DotenvArray files =>
      if String.eqb (path c) "" && negb (Nat.eqb (length files) 0)
      then inl "Config path shouldn't be empty"
      else
        inr ({| dotenv := DotenvArray (map (fun _ => None) files);
                env := env c; path := path c; others := others c |},
             fold_left (fun e p => dotenv_config p e) (files_to_load c) penv,
             files_to_load c)
  end.

(** The body of the loop of [setEnvironment]. *)
Definition set_variable (penv : gmap string string) (entry : string * string)
  : gmap string string :=
  match penv !! fst entry with
  | None => <[toUpperCase (fst entry) := snd entry]> penv
  | Some _ => penv
  end.

(** [setEnvironment] *)
Definition setEnvironment (c : t) (penv : gmap string string)
  : gmap string string :=
  match env c with
  | EnvObject entries => fold_left set_variable entries penv
  | EnvOther => penv
  end.

(** [getConfig] *)
Definition getConfig (st : state) : t := config st.

(** [configure]: the outcome, the state left behind and the files
    loaded. *)
Definition configure (newConfig : argument) (st : state)
  : outcome * state * list string :=
  match loadDotenv (merged newConfig (config st)) (process_env st) with
  | inl msg =>
      (Throws msg, State (merged newConfig (config st)) (process_env st), [])
  | inr (c, penv, loaded) =>
      (Returns c, State c (setEnvironment c penv), loaded)
  end.

End WithLibraries.

End ConfigStore.

(** For the examples: upper case on ASCII letters, and [path.join] on
    two plain segments. *)
Definition upper_char (c : Ascii.ascii) : Ascii.ascii :=
  let n := Ascii.nat_of_ascii c in
  if Nat.leb 97 n && Nat.leb n 122 then Ascii.ascii_of_nat (n - 32) else c.

Fixpoint upper_ascii (s : string) : string :=
  match s with
  | EmptyString => EmptyString
  | String c s' => String (upper_char c) (upper_ascii s')
  end.

(* ------------------------------------------------------------------ *)
(** ** The registries of the companion module ([before], [after])

    [flattenArray] is not part of the sources: the list it returns for
    the arguments after the first, the names being registered, is what
    [before] and [after] take here. *)

Module Legacy.

(** One insertion into a [Set]: an element that is there already is not
    added, a new one comes last. *)
Definition add_new (acc : list string) (x : string) : list string :=
  if decide (x ∈ acc) then acc else acc ++ [x].

(** [[...Array.from(new Set(xs))]] *)
Definition unique (xs : list string) : list string := fold_left add_new xs [].

(** The three statements [before] and [after] share, on their own
    object. *)
Definition register (reg : gmap string (list string)) (name : string)
  (names : list string) : gmap string (list string) :=
  let current := default [] (reg !! name) in
  <[name := unique (current ++ names)]> reg.

(** [_before] and [_after] *)
Record registries : Type := Registries {
  _before : gmap string (list string);
  _after : gmap string (list string)
}.

(** both objects are empty when the module is loaded *)
Definition empty : registries := Registries ∅ ∅.

(** [before(name, ...names)] *)
Definition before (name : string) (names : list string) (st : registries)
  : registries :=
  {| _before := register (_before st) name names; _after := _after st |}.

(** [after(name, ...names)] *)
Definition after (name : string) (names : list string) (st : registries)
  : registries :=
  {| _before := _before st; _after := register (_after st) name names |}.

(** Every registered list is free of duplicates. *)
Definition duplicate_free (st : registries) : Prop :=
  (forall name l, _before st !! name = Some l -> NoDup l)
  /\ (forall name l, _after st !! name = Some l -> NoDup l).

End Legacy.
(* ------------------------------------------------------------------ *)
(** * Properties *)

(** ** Strings *)

Lemma append_cons (c : Ascii.ascii) (s t : string) :
  String c s +:+ t = String c (s +:+ t).
Proof. reflexivity. Qed.

Lemma append_nil_r (s : string) : s +:+ "" = s.
Proof.
  induction s as [|c s IH]; [reflexivity|]. by rewrite append_cons, IH.
Qed.

Lemma append_assoc (s t u : string) : (s +:+ t) +:+ u = s +:+ t +:+ u.
Proof.
  induction s as [|c s IH]; [reflexivity|]. by rewrite !append_cons, IH.
Qed.

Lemma prefix_inv (p s : string) :
  String.prefix p s = true -> exists t, s = p +:+ t.
Proof.
  revert s. induction p as [|a p IH]; intros s Hp.
  - by exists s.
  - destruct s as [|b s]; [discriminate|]. cbn in Hp.
    destruct (Ascii.ascii_dec a b) as [->|]; [|discriminate].
    destruct (IH _ Hp) as [t ->]. exists t. by rewrite append_cons.
Qed.

Lemma split_go_nonempty (sep : string) (k : nat) (cur s : string) :
  split_go sep k cur s <> [].
Proof.
  revert k cur. induction s as [|c s IH]; intros k cur; cbn [split_go]; [done|].
  destruct k; [|apply IH].
  destruct (String.prefix sep (String c s)); [done | apply IH].
Qed.

Lemma split_go_skip (sep pre t cur : string) :
  split_go sep (String.length pre) cur (pre +:+ t) = split_go sep 0 cur t.
Proof. induction pre as [|c pre IH]; [reflexivity | exact IH]. Qed.

Lemma join_cons (sep x : string) (l : list string) :
  l <> [] -> join sep (x :: l) = x +:+ sep +:+ join sep l.
Proof. by destruct l. Qed.

Lemma join_split_go (sep : string) (n : nat) :
  sep <> "" ->
  forall s cur, String.length s <= n ->
    join sep (split_go sep 0 cur s) = cur +:+ s.
Proof.
  intros Hsep. induction n as [|n IH]; intros s cur Hlen.
  - destruct s; [|cbn in Hlen; lia]. cbn. by rewrite append_nil_r.
  - destruct s as [|c s]; [cbn; by rewrite append_nil_r|].
    cbn [split_go]. destruct (String.prefix sep (String c s)) eqn:Hp.
    + destruct (prefix_inv _ _ Hp) as [t Ht].
      destruct sep as [|a sep']; [done|]. rewrite append_cons in Ht.
      injection Ht as -> ->.
      replace (String.length (String a sep') - 1) with (String.length sep')
        by (cbn; lia).
      rewrite split_go_skip, join_cons by apply split_go_nonempty.
      rewrite IH; [by rewrite append_cons|].
      cbn [String.length] in Hlen. clear -Hlen. revert n Hlen.
      induction sep' as [|b sep' IH']; intros n Hlen.
      * change ("" +:+ t) with t in Hlen. lia.
      * rewrite append_cons in Hlen. cbn [String.length] in Hlen.
        specialize (IH' (n - 1)). lia.
    + rewrite IH by (cbn in Hlen; lia).
      by rewrite append_assoc.
Qed.

Lemma join_split (s sep : string) : sep <> "" -> join sep (split s sep) = s.
Proof.
  intros Hsep. unfold split. destruct sep; [done|].
  by rewrite (join_split_go _ (String.length s)).
Qed.

Lemma split_nonempty (s sep : string) : sep <> "" -> split s sep <> [].
Proof. intros Hsep. unfold split. destruct sep; [done|]. apply split_go_nonempty. Qed.

Lemma removelast_with_last {A} (l : list A) (x : A) :
  last l = Some x -> l = removelast l ++ [x].
Proof.
  induction l as [|y l IH]; [done|]. destruct l as [|z l].
  - cbn. by intros [= ->].
  - intros Hl. change (removelast (y :: z :: l)) with (y :: removelast (z :: l)).
    cbn [app]. f_equal. apply IH. exact Hl.
Qed.

Lemma prefix_char (c a : Ascii.ascii) (s : string) :
  String.prefix (String c "") (String a s) = Ascii.eqb c a.
Proof.
  cbn. destruct (Ascii.ascii_dec c a) as [->|Hne].
  - rewrite Ascii.eqb_refl. by destruct s.
  - symmetry. by apply Ascii.eqb_neq.
Qed.

Lemma split_go_char_app (c : Ascii.ascii) (s t cur : string) :
  split_go (String c "") 0 cur (s +:+ String c t)
  = split_go (String c "") 0 cur s ++ split_go (String c "") 0 "" t.
Proof.
  revert cur. induction s as [|a s IH]; intros cur.
  - change ("" +:+ String c t) with (String c t).
    cbn [split_go]. rewrite prefix_char, Ascii.eqb_refl. reflexivity.
  - rewrite append_cons. cbn [split_go]. rewrite !prefix_char.
    destruct (Ascii.eqb c a); cbn [String.length Nat.sub]; by rewrite IH.
Qed.

Lemma split_go_free (c : Ascii.ascii) (t cur : string) :
  free_of c t = true -> split_go (String c "") 0 cur t = [cur +:+ t].
Proof.
  revert cur. induction t as [|a t IH]; intros cur Hfree.
  - cbn. by rewrite append_nil_r.
  - cbn [free_of] in Hfree. apply andb_true_iff in Hfree as [Hca Hfree].
    cbn [split_go]. rewrite prefix_char.
    destruct (Ascii.eqb c a); [discriminate|].
    rewrite IH by done. by rewrite append_assoc.
Qed.

Lemma join_app_last (sep x : string) (l : list string) :
  l <> [] -> join sep (l ++ [x]) = join sep l +:+ sep +:+ x.
Proof.
  induction l as [|y l IH]; [done|]. intros _.
  destruct l as [|z l]; [reflexivity|].
  change ((y :: z :: l) ++ [x]) with (y :: (z :: l) ++ [x]).
  rewrite !join_cons by done. rewrite IH by done.
  by rewrite !append_assoc.
Qed.

(** The hook name of a task inside a namespace, and of a top-level task. *)
Lemma getFnName_namespaced (c : Ascii.ascii) (ns t prefix : string) :
  free_of c t = true ->
  getFnName (ns +:+ String c t) prefix (String c "")
  = ns +:+ String c (prefix +:+ t).
Proof.
  intros Hfree. unfold getFnName, split.
  rewrite split_go_char_app, (split_go_free c t "") by done.
  change ("" +:+ t) with t.
  unfold prefixed_last. rewrite last_snoc, List.removelast_last.
  rewrite join_app_last by apply split_go_nonempty.
  change (split_go (String c "") 0 "" ns) with (split ns (String c "")).
  rewrite join_split by done. reflexivity.
Qed.

Lemma getFnName_top_level (c : Ascii.ascii) (t prefix : string) :
  free_of c t = true ->
  getFnName t prefix (String c "") = prefix +:+ t.
Proof.
  intros Hfree. unfold getFnName, split.
  rewrite (split_go_free c t "") by done. reflexivity.
Qed.

(** C9. The hook name is the task name with the prefix put in front of its
    last segment only: the name splits into leading segments and a last
    one, joins back to itself, and the hook name is the same join with the
    prefixed last segment.  For a one-character separator: the hook name
    of [ns:task] is [ns:] followed by the prefix and [task], whatever
    segments [ns] is made of, and the hook name of a top-level [task] is
    the prefix followed by [task].  [getFnName "a:b" "pre"] is ["a:preb"]
    and [getFnName "task" "post"] is ["posttask"]. *)
Theorem C9_hook_name_prefixes_last_segment :
  (forall name prefix sep : string,
      sep <> "" ->
      exists (init : list string) (lastName : string),
        split name sep = init ++ [lastName]
        /\ join sep (init ++ [lastName]) = name
        /\ getFnName name prefix sep = join sep (init ++ [prefix +:+ lastName]))
  /\ (forall (c : Ascii.ascii) (ns task prefix : string),
         free_of c task = true ->
         getFnName (ns +:+ String c task) prefix (String c "")
         = ns +:+ String c (prefix +:+ task))
  /\ (forall (c : Ascii.ascii) (task prefix : string),
         free_of c task = true ->
         getFnName task prefix (String c "") = prefix +:+ task)
  /\ getFnName "a:b" "pre" ":" = "a:preb"
  /\ getFnName "task" "post" ":" = "posttask".
Proof.
  split; [|split; [|split; [|split; reflexivity]]];
    [|apply getFnName_namespaced|apply getFnName_top_level].
  intros name prefix sep Hsep.
  destruct (last (split name sep)) as [lastName|] eqn:Hlast.
  - exists (removelast (split name sep)), lastName.
    rewrite <- (removelast_with_last _ _ Hlast).
    split; [reflexivity|]. split; [by apply join_split|].
    unfold getFnName, prefixed_last. by rewrite Hlast.
  - apply last_None in Hlast. by apply split_nonempty in Hlast.
Qed.

Lemma C9_hook_name_witness :
  ":" <> ""
  /\ exists (init : list string) (lastName : string),
       split "deploy:assets:sync" ":" = init ++ [lastName]
       /\ join ":" (init ++ [lastName]) = "deploy:assets:sync"
       /\ getFnName "deploy:assets:sync" "pre" ":"
          = join ":" (init ++ ["pre" +:+ lastName]).
Proof.
  split; [discriminate|].
  apply (proj1 C9_hook_name_prefixes_last_segment "deploy:assets:sync" "pre" ":").
  discriminate.
Defined.

(* ------------------------------------------------------------------ *)
(** ** Task resolution *)

Lemma is_function_not_object (v : val) : is_function v = true -> isObject v = false.
Proof. by destruct v. Qed.

Lemma validTaskValue_not_object (h : heap) (v : val) :
  isObject v = false -> validTaskValue h v = is_function v.
Proof.
  intros Hv. unfold validTaskValue. rewrite Hv. cbn. by rewrite orb_false_r.
Qed.

(** The heap [resolveTask] leaves behind. *)
Lemma resolveTask_heap (h : heap) (obj : val) (k : key) (sep : string) :
  snd (resolveTask h obj k sep) =
    let task := walk h obj (segments k sep) in
    if negb (key_falsy k)
       && isObject task
       && negb (truthy (get_prop h task "_"))
       && isObject (get_prop h task "default")
    then set_prop h task "default" (get_prop h (get_prop h task "default") "_")
    else h.
Proof.
  unfold resolveTask. destruct (key_falsy k); [reflexivity|].
  fold (segments k sep). cbn zeta.
  destruct (isObject (walk h obj (segments k sep))) eqn:Hobj.
  - cbn [negb andb].
    destruct (truthy (get_prop h (walk h obj (segments k sep)) "_"));
      [reflexivity|].
    by destruct (isObject (get_prop h (walk h obj (segments k sep)) "default")).
  - rewrite validTaskValue_not_object by done. cbn [negb andb].
    destruct (is_function (walk h obj (segments k sep))) eqn:Hfun;
      [|reflexivity].
    destruct (walk h obj (segments k sep)); try discriminate. reflexivity.
Qed.




(* ------------------------------------------------------------------ *)
(** ** Invariants of the engine *)

Lemma prepend_Some (tr : list event) (r : option result)
    (c : completion) (tr' : list event) (h' : heap) :
  prepend tr r = Some (c, tr', h') ->
  exists tr0, r = Some (c, tr0, h') /\ tr' = tr ++ tr0.
Proof.
  destruct r as [[[c0 tr0] h0]|]; [|discriminate].
  cbn. intros [= -> <- ->]. by exists tr0.
Qed.

(** A relation [R] on heaps and a property [T] of traces that every step
    of the engine keeps, for whatever the recursive call [exec] keeps
    them too. *)
Section Invariant.

Variable F : fid -> fundef.
Variable cfg : config.
Variables pinefile args : val.
Variable R : heap -> heap -> Prop.
Variable T : list event -> Prop.

Hypothesis R_refl : forall h, R h h.
Hypothesis R_trans : forall h1 h2 h3, R h1 h2 -> R h2 h3 -> R h1 h3.
Hypothesis R_resolve :
  forall h obj k sep, R h (snd (resolveTask h obj k sep)).
Hypothesis T_nil : T [].
Hypothesis T_app : forall a b, T a -> T b -> T (a ++ b).
Hypothesis T_starting : forall n, T [EvStarting n].
Hypothesis T_finished : forall n, T [EvFinished n].
Hypothesis T_logerror : forall e, T [EvLogError e].
Hypothesis T_call : forall f xs, T [EvCall f xs].
Hypothesis T_run : forall f, T [EvRun f].
Hypothesis T_done : forall e a body, T body -> T [EvDone e a body].

Variable exec : heap -> string -> option result.
Hypothesis exec_inv :
  forall h name c tr h', exec h name = Some (c, tr, h') -> R h h' /\ T tr.

Lemma post_hook_inv fnName h c tr h' :
  post_hook pinefile exec fnName h = Some (c, tr, h') -> R h h' /\ T tr.
Proof using All.
  unfold post_hook.
  pose proof (R_resolve h pinefile (KStr (getFnName fnName "post" ":")) ":") as HR.
  destruct (resolveTask h pinefile _ ":") as [postFunc h1]. cbn [snd] in HR.
  destruct (truthy postFunc).
  - intros [? ?]%exec_inv. eauto.
  - intros [= <- <- <-]. auto.
Qed.

Lemma callback_inv name fnName h err c tr h' :
  callback pinefile exec name fnName h err = Some (c, tr, h') ->
  R h h' /\ T tr.
Proof using All.
  unfold callback.
  intros (tr0 & [? ?]%post_hook_inv & ->)%prepend_Some. split; [done|].
  repeat apply T_app; auto. unfold logged. destruct (truthy_exn err); auto.
Qed.

Lemma float_done_inv name fnName h err c tr h' :
  float_done pinefile exec name fnName h err = Some (c, tr, h') ->
  R h h' /\ T tr.
Proof using All.
  unfold float_done.
  destruct (callback _ _ _ _ _ _) as [[[c0 body] h0]|] eqn:Hcb; [|discriminate].
  intros [= <- <- <-]. apply callback_inv in Hcb as [? ?]. auto.
Qed.

Lemma settle_then_done_inv name fnName h r c tr h' :
  settle_then_done pinefile exec name fnName h r = Some (c, tr, h') ->
  R h h' /\ T tr.
Proof using All.
  unfold settle_then_done.
  destruct r as [v|[v|e|]|e]; try apply float_done_inv.
  intros [= <- <- <-]. auto.
Qed.

Lemma run_dones_inv name fnName uses final h c tr h' :
  run_dones pinefile exec name fnName h uses final = Some (c, tr, h') ->
  R h h' /\ T tr.
Proof using All.
  revert h c tr h'. induction uses as [|[e awaited] uses IH];
    intros h c tr h'; cbn [run_dones].
  - intros [= <- <- <-]. auto.
  - destruct (callback _ _ _ _ _ _) as [[[c0 body] h0]|] eqn:Hcb; [|discriminate].
    apply callback_inv in Hcb as [HR HT].
    assert (forall r,
               prepend [EvDone e awaited body] r = Some (c, tr, h') ->
               r = run_dones pinefile exec name fnName h0 uses final ->
               R h h' /\ T tr) as Hgo.
    { intros r (tr0 & Hr & ->)%prepend_Some ->.
      apply IH in Hr as [? ?]. split; [eauto | auto]. }
    destruct awaited; [destruct c0|]; try (intros Hp; by eapply Hgo);
      intros [= <- <- <-]; auto.
Qed.

Lemma invoke_inv name fnName h r c tr h' :
  invoke F pinefile args exec name fnName h r = Some (c, tr, h') ->
  R h h' /\ T tr.
Proof using All.
  assert (forall v, invoke_value F pinefile exec name fnName h v
                    = Some (c, tr, h') -> R h h' /\ T tr) as Hval.
  { intros v. unfold invoke_value.
    destruct v; try apply settle_then_done_inv.
    destruct (Nat.eqb _ 0).
    - intros (tr0 & Hr & ->)%prepend_Some.
      apply settle_then_done_inv in Hr as [? ?]. auto.
    - intros (tr0 & Hr & ->)%prepend_Some.
      apply run_dones_inv in Hr as [? ?]. auto. }
  destruct r as [v|[v|e|]|fn]; cbn [invoke]; try apply Hval;
    try (intros [= <- <- <-]; by auto).
  unfold invoke_task.
  destruct (task_body F args fn) as [tr0 x] eqn:Hbody.
  intros (tr1 & Hr & ->)%prepend_Some.
  apply settle_then_done_inv in Hr as [? ?]. split; [done|].
  apply T_app; [|done].
  unfold task_body, call in Hbody.
  destruct fn; injection Hbody as <- _; auto.
Qed.

Lemma pre_hook_inv h fnName c tr h' :
  pre_hook pinefile exec h fnName = Some (c, tr, h') -> R h h' /\ T tr.
Proof using All.
  unfold pre_hook.
  pose proof (R_resolve h pinefile (KStr (getFnName fnName "pre" ":")) ":") as HR.
  destruct (resolveTask h pinefile _ ":") as [preFunc h1]. cbn [snd] in HR.
  destruct (truthy preFunc).
  - intros [? ?]%exec_inv. eauto.
  - intros [= <- <- <-]. auto.
Qed.

Lemma dispatch_trace h fn name tr x :
  dispatch F cfg pinefile args h fn name = (tr, x) -> T tr.
Proof using All.
  unfold dispatch.
  assert (forall xs, produced (call F fn xs) = (tr, x) -> T tr) as Hp.
  { intros xs. unfold call. destruct fn; cbn; try (intros [= <- _]; by auto).
    destruct (fn_call (F f) xs); intros [= <- _]; auto. }
  destruct (declared_length F fn) as [[|[|[|[|[|n]]]]]|]; eauto;
    try (intros [= <- _]; by auto).
  destruct (_ && _); eauto.
Qed.

Lemma run_found_inv h name s c tr h' :
  run_found F cfg pinefile args exec h name s = Some (c, tr, h') ->
  R h h' /\ T tr.
Proof using All.
  unfold run_found.
  destruct (dispatch _ _ _ _ _ _ _) as [tr_d [e|r]] eqn:Hd;
    apply dispatch_trace in Hd.
  { intros [= <- <- <-]. auto. }
  destruct (pre_hook _ _ _ _) as [[[c0 tr_pre] h0]|] eqn:Hpre; [|discriminate].
  apply pre_hook_inv in Hpre as [HR HT].
  destruct c0; try (intros [= <- <- <-]; by auto).
  intros (tr0 & Hr & ->)%prepend_Some.
  apply invoke_inv in Hr as [? ?]. split; [eauto|].
  repeat apply T_app; auto.
Qed.

End Invariant.

(* ------------------------------------------------------------------ *)
(** ** What the engine writes to the namespace *)

Lemma keeps_other_keys_refl (h : heap) : keeps_other_keys h h.
Proof. intros l o Hl. by exists o. Qed.

Lemma keeps_other_keys_trans (h1 h2 h3 : heap) :
  keeps_other_keys h1 h2 -> keeps_other_keys h2 h3 -> keeps_other_keys h1 h3.
Proof.
  intros H12 H23 l o Hl.
  destruct (H12 _ _ Hl) as (o2 & Hl2 & Hk2).
  destruct (H23 _ _ Hl2) as (o3 & Hl3 & Hk3).
  exists o3. split; [done|]. intros k Hk. by rewrite Hk3, Hk2.
Qed.

Lemma keeps_other_keys_set_default (h : heap) (v x : val) :
  keeps_other_keys h (set_prop h v "default" x).
Proof.
  destruct v; try apply keeps_other_keys_refl.
  intros l0 o Hl0. cbn [set_prop].
  destruct (decide (l = l0)) as [->|Hne].
  - exists (<["default" := x]> o). rewrite lookup_alter_eq, Hl0.
    split; [done|]. intros k Hk. by rewrite lookup_insert_ne.
  - exists o. by rewrite lookup_alter_ne.
Qed.

Lemma keeps_other_keys_resolveTask (h : heap) (obj : val) (k : key) (sep : string) :
  keeps_other_keys h (snd (resolveTask h obj k sep)).
Proof.
  rewrite resolveTask_heap. cbn zeta.
  destruct (_ && _); [apply keeps_other_keys_set_default | apply keeps_other_keys_refl].
Qed.

Lemma execute_frame F cfg pinefile args fuel :
  forall h name c tr h',
    execute F cfg pinefile args fuel h name = Some (c, tr, h') ->
    keeps_other_keys h h'.
Proof.
  induction fuel as [|n IH]; intros h name c tr h'; [discriminate|].
  cbn [execute].
  pose proof (keeps_other_keys_resolveTask h pinefile (KStr name) ":") as HR.
  destruct (resolveTask h pinefile (KStr name) ":") as [fn0 h1]. cbn [snd] in HR.
  destruct (select F cfg pinefile args h1 fn0 name) as [tr0 [e|s]].
  { by intros [= <- <- <-]. }
  destruct (negb (sel_found s)).
  { by intros [= <- <- <-]. }
  intros (tr1 & Hr & ->)%prepend_Some.
  eapply keeps_other_keys_trans; [exact HR|].
  eapply (run_found_inv F cfg pinefile args keeps_other_keys (fun _ => True));
    eauto using keeps_other_keys_refl, keeps_other_keys_trans,
                keeps_other_keys_resolveTask.
Qed.

(** C7, as stated, fails: resolving (or running) task [a] of
    [{ a: { default: { _: g } } }] overwrites the [default] entry of the
    node [a] with the function [g]. *)
Lemma C7_counterexample :
  get_prop ns_nested_default (VObj 2) "default" = VObj 3
  /\ get_prop (snd (resolveTask ns_nested_default (VObj 1) (KStr "a") ":"))
       (VObj 2) "default" = VFun "g"
  /\ exists c tr h',
       runTask plain_functions (Config VUndef VUndef) 2
         ns_nested_default (VObj 1) "a" (VObj 4) = Some (c, tr, h')
       /\ get_prop h' (VObj 2) "default" = VFun "g".
Proof.
  split; [reflexivity|]. split; [vm_compute; reflexivity|].
  destruct (runTask plain_functions (Config VUndef VUndef) 2
              ns_nested_default (VObj 1) "a" (VObj 4))
    as [[[c tr] h']|] eqn:Hrun; [|vm_compute in Hrun; discriminate].
  exists c, tr, h'. split; [reflexivity|].
  vm_compute in Hrun. injection Hrun as <- <- <-. vm_compute. reflexivity.
Qed.

(** C7, amended.  The core writes to the namespace in one place only:
    [resolveTask] replaces the [default] entry of the mapping it resolves
    by that entry's own [_] when the mapping has no truthy [_] and its
    [default] is a mapping, and leaves the heap as it is otherwise; so
    after [runTask] every object is still there with the same value under
    every key other than [default]. *)
Theorem C7_only_default_entries_are_rewritten (F : fid -> fundef) (cfg : config) :
  (forall (h : heap) (obj : val) (k : key) (sep : string),
      let task := walk h obj (segments k sep) in
      snd (resolveTask h obj k sep) =
        if negb (key_falsy k)
           && isObject task
           && negb (truthy (get_prop h task "_"))
           && isObject (get_prop h task "default")
        then set_prop h task "default"
               (get_prop h (get_prop h task "default") "_")
        else h)
  /\ (forall (fuel : nat) (h : heap) (pinefile : val) (name : string)
        (args : val) (c : completion) (tr : list event) (h' : heap),
        runTask F cfg fuel h pinefile name args = Some (c, tr, h') ->
        keeps_other_keys h h').
Proof.
  split; [apply resolveTask_heap|].
  intros fuel h pinefile name args c tr h'. unfold runTask.
  assert (keeps_other_keys h (<[fresh (dom h) := ∅]> h)) as Hfresh.
  { intros l o Hl. exists o. split; [|done].
    rewrite lookup_insert_ne; [done|]. intros <-.
    apply (is_fresh (dom h)). apply elem_of_dom. eauto. }
  destruct args; cbn [args_or_empty]; try apply execute_frame.
  intros Hex%execute_frame. by eapply keeps_other_keys_trans.
Qed.

Lemma C7_only_default_entries_witness :
  exists c tr h',
    runTask plain_functions (Config VUndef VUndef) 2
      ns_nested_default (VObj 1) "a" (VObj 4) = Some (c, tr, h')
    /\ keeps_other_keys ns_nested_default h'.
Proof.
  destruct (runTask plain_functions (Config VUndef VUndef) 2
              ns_nested_default (VObj 1) "a" (VObj 4))
    as [[[c tr] h']|] eqn:Hrun; [|vm_compute in Hrun; discriminate].
  exists c, tr, h'. split; [reflexivity|].
  exact (proj2 (C7_only_default_entries_are_rewritten plain_functions
                  (Config VUndef VUndef)) _ _ _ _ _ _ _ _ Hrun).
Defined.

(* ------------------------------------------------------------------ *)
(** ** The engine on the repository's test and on the runner shapes *)

(** [should run custom global runner]: the configured runner, an [async]
    function of three parameters, is called with the pinefile, the name
    and the arguments; the function its promise resolves to has no
    parameters and runs between the start log and the finish log. *)
Example custom_global_runner :
  runTask example_functions (Config (VFun "custom_runner") VUndef) 1
    ns_test (VObj 1) "test" (VObj 2)
  = Some (Resolved,
          [EvCall "custom_runner" [VObj 1; VStr "test"; VObj 2];
           EvStarting "test"; EvCall "inner" [];
           EvDone (ExnValue VUndef) false [EvFinished "test"]],
          ns_test).
Proof. vm_compute. reflexivity. Qed.

(** Without a configured runner the task behind [test._] is run. *)
Example collapsed_namespace_task :
  runTask example_functions (Config VUndef VUndef) 1
    ns_test (VObj 1) "test" (VObj 2)
  = Some (Resolved,
          [EvStarting "test"; EvCall "task" [VObj 2];
           EvDone (ExnValue VUndef) false [EvFinished "test"]],
          ns_test).
Proof. vm_compute. reflexivity. Qed.

(** A plugin whose runner takes the completion callback and awaits it. *)
Example callback_style_runner :
  runTask example_functions (Config VUndef VUndef) 2
    (ns_build_with "plugin_callback") (VObj 1) "build" (VObj 2)
  = Some (Resolved,
          [EvCall "plugin_callback" [VObj 1; VStr "build"; VObj 2];
           EvStarting "prebuild"; EvCall "fn2" [VObj 2];
           EvDone (ExnValue VUndef) false [EvFinished "prebuild"];
           EvStarting "build"; EvRun "callback_runner";
           EvDone (ExnValue VUndef) true
             [EvFinished "build"; EvStarting "postbuild"; EvCall "fn3" [VObj 2];
              EvDone (ExnValue VUndef) false [EvFinished "postbuild"]]],
          ns_build_with "plugin_callback").
Proof. vm_compute. reflexivity. Qed.

(** Fuel is only there for the recursion through hooks: one unit for a
    task without hooks, none is not enough. *)
Example no_fuel_no_result :
  execute example_functions (Config VUndef VUndef) (VObj 1) (VObj 2) 0
    ns_test "test" = None
  /\ execute example_functions (Config VUndef VUndef) (VObj 1) (VObj 2) 1
       ns_build "build" = None.
Proof. split; vm_compute; reflexivity. Qed.

(* ------------------------------------------------------------------ *)
(** ** Runner selection and the not-found gate *)


Lemma select_function_runner F cfg pinefile args h fn0 name f :
  cfg_runner cfg = VFun f ->
  select F cfg pinefile args h fn0 name
  = ([], inr {| sel_fn := VFun f; sel_fnName := name; sel_found := true |}).
Proof. intros Hr. unfold select. by rewrite Hr. Qed.


(** C8. Selection is first match wins.  A callable configured runner is
    selected and marked found whatever the namespace resolves the name to.
    Otherwise, for a runner object with a callable [default], that default
    is selected; found is what [taskExists(pinefile, name, args, options)]
    answers when the object has such a function, and true when it has
    none.  Otherwise a callable resolved task is selected and found. *)
Theorem C8_runner_selection_first_match_wins
  (F : fid -> fundef) (cfg : config) (pinefile args : val)
  (h : heap) (fn0 : val) (name : string) :
  let runner := cfg_runner cfg in
  let options := cfg_options cfg in
  let dflt := get_prop h runner "default" in
  (is_function runner = true ->
   select F cfg pinefile args h fn0 name
   = ([], inr {| sel_fn := runner; sel_fnName := name; sel_found := true |}))
  /\ (is_function runner = false ->
      isObject runner = true ->
      is_function dflt = true ->
      (forall g : fid,
          get_prop h runner "taskExists" = VFun g ->
          select F cfg pinefile args h fn0 name
          = ([EvCall g [pinefile; VStr name; args; options]],
             match fn_call (F g) [pinefile; VStr name; args; options] with
             | RetVal v =>
                 inr {| sel_fn := dflt; sel_fnName := name;
                        sel_found := truthy v |}
             | RetPromise _ =>
                 inr {| sel_fn := dflt; sel_fnName := name;
                        sel_found := true |}
             | RetThrow e => inl e
             end))
      /\ (is_function (get_prop h runner "taskExists") = false ->
          select F cfg pinefile args h fn0 name
          = ([], inr {| sel_fn := dflt; sel_fnName := name;
                        sel_found := true |})))
  /\ (is_function runner = false ->
      isObject runner && is_function dflt = false ->
      is_function fn0 = true ->
      select F cfg pinefile args h fn0 name
      = ([], inr {| sel_fn := fn0; sel_fnName := name; sel_found := true |})).
Proof.
  cbn zeta. split; [|split].
  - intros Hrun. destruct (cfg_runner cfg) eqn:Hr; try discriminate.
    by apply select_function_runner.
  - intros Hrun Hobj Hdef. unfold select. rewrite Hrun, Hobj, Hdef. cbn [andb].
    pose proof (is_function_not_object _ Hdef) as Hnobj.
    split.
    + intros g Hg. rewrite Hg. cbn [is_function call].
      destruct (fn_call (F g) _) as [v|p|e]; [| |reflexivity];
        by rewrite Hnobj.
    + intros Hte. rewrite Hte. by rewrite Hnobj.
  - intros Hrun Hobj Hfn0. unfold select. rewrite Hrun, Hobj, Hfn0.
    by rewrite (is_function_not_object _ Hfn0).
Qed.

Lemma C8_runner_selection_witness :
  is_function (cfg_runner (Config (VFun "custom") VUndef)) = true
  /\ select plain_functions (Config (VFun "custom") VUndef) (VObj 1) (VObj 4)
       ns_nested_default (VFun "task") "a"
     = ([], inr {| sel_fn := VFun "custom"; sel_fnName := "a";
                   sel_found := true |}).
Proof.
  split; [reflexivity|].
  apply (proj1 (C8_runner_selection_first_match_wins plain_functions
                  (Config (VFun "custom") VUndef) (VObj 1) (VObj 4)
                  ns_nested_default (VFun "task") "a")).
  reflexivity.
Defined.

(** The only event of selection is the call of [taskExists]. *)
Lemma select_events F cfg pinefile args h fn0 name tr x :
  select F cfg pinefile args h fn0 name = (tr, x) ->
  tr = []
  \/ exists g, get_prop h (cfg_runner cfg) "taskExists" = VFun g
               /\ tr = [EvCall g [pinefile; VStr name; args; cfg_options cfg]].
Proof.
  unfold select.
  set (chosen := if is_function (cfg_runner cfg) then _ else _).
  assert (fst chosen = []
          \/ exists g, get_prop h (cfg_runner cfg) "taskExists" = VFun g
               /\ fst chosen
                  = [EvCall g [pinefile; VStr name; args; cfg_options cfg]])
    as Hchosen.
  { subst chosen.
    destruct (is_function (cfg_runner cfg)); [by left|].
    destruct (_ && _); [|destruct (is_function fn0); by left].
    destruct (get_prop h (cfg_runner cfg) "taskExists") eqn:Hte;
      try by left.
    right. exists f. split; [done|]. cbn [is_function call].
    by destruct (fn_call (F f) _). }
  destruct chosen as [tr0 [e|[fn b]]]; cbn [fst] in Hchosen.
  - by intros [= <- _].
  - destruct (_ && _); by intros [= <- _].
Qed.

Lemma execute_not_found F cfg pinefile args n h name tr s :
  select F cfg pinefile args (snd (resolveTask h pinefile (KStr name) ":"))
    (fst (resolveTask h pinefile (KStr name) ":")) name = (tr, inr s) ->
  sel_found s = false ->
  execute F cfg pinefile args (S n) h name
  = Some (Resolved, tr ++ [EvNotFound name],
          snd (resolveTask h pinefile (KStr name) ":")).
Proof.
  intros Hsel Hfound. cbn [execute].
  destruct (resolveTask h pinefile (KStr name) ":") as [fn0 h1].
  cbn [fst snd] in *. by rewrite Hsel, Hfound.
Qed.

(** C2. When selection ends without a function (not found), [execute]
    logs the not-found error and the promise of [runTask] resolves; apart
    from a possible call of the runner's [taskExists] nothing runs: no
    hook, no task.  In particular this is so when no runner is configured
    and the resolved task is neither callable nor a mapping with a
    callable [default]. *)
Theorem C2_task_not_found_is_logged_and_resolves
  (F : fid -> fundef) (cfg : config) (n : nat)
  (h : heap) (pinefile : val) (name : string) (args : val) :
  let args' := fst (args_or_empty h args) in
  let h0 := snd (args_or_empty h args) in
  let fn0 := fst (resolveTask h0 pinefile (KStr name) ":") in
  let h1 := snd (resolveTask h0 pinefile (KStr name) ":") in
  (forall (tr : list event) (s : selection),
      select F cfg pinefile args' h1 fn0 name = (tr, inr s) ->
      sel_found s = false ->
      runTask F cfg (S n) h pinefile name args
      = Some (Resolved, tr ++ [EvNotFound name], h1)
      /\ (tr = []
          \/ exists g,
               get_prop h1 (cfg_runner cfg) "taskExists" = VFun g
               /\ tr = [EvCall g [pinefile; VStr name; args';
                                  cfg_options cfg]]))
  /\ (is_function (cfg_runner cfg) = false ->
      isObject (cfg_runner cfg) = false ->
      is_function fn0 = false ->
      is_function (get_prop h1 fn0 "default") = false ->
      runTask F cfg (S n) h pinefile name args
      = Some (Resolved, [EvNotFound name], h1)).
Proof.
  cbn zeta. unfold runTask.
  destruct (args_or_empty h args) as [args' h0]. cbn [fst snd].
  split.
  - intros tr s Hsel Hfound. split.
    + by apply (execute_not_found _ _ _ _ _ _ _ tr s).
    + by eapply select_events.
  - intros Hrun Hobj Hfn0 Hdef.
    set (fn0 := fst (resolveTask h0 pinefile (KStr name) ":")) in *.
    set (h1 := snd (resolveTask h0 pinefile (KStr name) ":")) in *.
    assert (exists s, select F cfg pinefile args' h1 fn0 name = ([], inr s)
                      /\ sel_found s = false) as (s & Hsel & Hfound).
    { unfold select. rewrite Hrun, Hobj, Hfn0. cbn [andb].
      destruct (isObject fn0 && truthy (get_prop h1 fn0 "default"));
        eexists; (split; [reflexivity|]); cbn; done. }
    by apply (execute_not_found _ _ _ _ _ _ _ [] s).
Qed.

Lemma C2_task_not_found_witness :
  is_function (cfg_runner (Config VUndef VUndef)) = false
  /\ runTask plain_functions (Config VUndef VUndef) 1
       ns_nested_default (VObj 1) "missing" (VObj 4)
     = Some (Resolved, [EvNotFound "missing"],
             snd (resolveTask ns_nested_default (VObj 1) (KStr "missing") ":")).
Proof.
  split; [reflexivity|].
  apply (proj2 (C2_task_not_found_is_logged_and_resolves plain_functions
                  (Config VUndef VUndef) 0 ns_nested_default (VObj 1)
                  "missing" (VObj 4))); reflexivity.
Defined.

(* ------------------------------------------------------------------ *)
(** ** A callable configured runner *)

Lemma flatten_app (a b : list event) : flatten (a ++ b) = flatten a ++ flatten b.
Proof. unfold flatten. by rewrite flat_map_app. Qed.

Lemma flatten_cons (ev : event) (tr : list event) :
  flatten (ev :: tr) = flatten_event ev ++ flatten tr.
Proof. reflexivity. Qed.

Lemma calls_app (a b : list event) : calls (a ++ b) = calls a ++ calls b.
Proof. unfold calls. by rewrite flatten_app, omap_app. Qed.











(* ------------------------------------------------------------------ *)
(** ** The found path, step by step *)

Lemma prepend_prepend (a b : list event) (r : option result) :
  prepend a (prepend b r) = prepend (a ++ b) r.
Proof. destruct r as [[[c tr] h]|]; [|done]. cbn. by rewrite app_assoc. Qed.

Lemma execute_found F cfg pinefile args n h name fn0 h1 tr_s s :
  resolveTask h pinefile (KStr name) ":" = (fn0, h1) ->
  select F cfg pinefile args h1 fn0 name = (tr_s, inr s) ->
  sel_found s = true ->
  execute F cfg pinefile args (S n) h name
  = prepend tr_s
      (run_found F cfg pinefile args (execute F cfg pinefile args n) h1 name s).
Proof. intros Hres Hsel Hfound. cbn [execute]. by rewrite Hres, Hsel, Hfound. Qed.

Lemma dispatch_plain F cfg pinefile args h f name :
  fn_length (F f) <> 3 -> fn_length (F f) <> 4 ->
  dispatch F cfg pinefile args h (VFun f) name = ([], inr (RunTask (VFun f))).
Proof.
  intros H3 H4. unfold dispatch. cbn [declared_length].
  by destruct (fn_length (F f)) as [|[|[|[|[|k]]]]].
Qed.

Section Steps.

Variable F : fid -> fundef.
Variable cfg : config.
Variables pinefile args : val.
Variable exec : heap -> string -> option result.
Variables name fnName : string.

Lemma float_done_eq h e c_post tr_post h3 :
  post_hook pinefile exec fnName h = Some (c_post, tr_post, h3) ->
  float_done pinefile exec name fnName h e
  = Some (Resolved, [EvDone e false (logged e ++ EvFinished name :: tr_post)], h3).
Proof.
  intros Hpost. unfold float_done, callback. rewrite Hpost. cbn [prepend].
  by rewrite <- app_assoc.
Qed.

Lemma settle_then_done_eq h r c_post tr_post h3 :
  settles r = true ->
  post_hook pinefile exec fnName h = Some (c_post, tr_post, h3) ->
  settle_then_done pinefile exec name fnName h r
  = Some (Resolved,
          [EvDone (delivered r) false
             (logged (delivered r) ++ EvFinished name :: tr_post)], h3).
Proof.
  intros Hr Hpost. destruct r as [v|[v|e|]|e]; try discriminate;
    cbn [settle_then_done delivered]; by eapply float_done_eq.
Qed.

Lemma run_found_plain h s f tr_pre h2 :
  sel_fn s = VFun f ->
  sel_fnName s = fnName ->
  fn_length (F f) <> 3 -> fn_length (F f) <> 4 ->
  pre_hook pinefile exec h fnName = Some (Resolved, tr_pre, h2) ->
  run_found F cfg pinefile args exec h name s
  = prepend (tr_pre ++ [EvStarting name; EvCall f [args]])
      (settle_then_done pinefile exec name fnName h2 (fn_call (F f) [args])).
Proof.
  intros Hfn Hname H3 H4 Hpre. unfold run_found.
  rewrite Hfn, Hname, dispatch_plain, Hpre by done.
  cbn [invoke invoke_task task_body call app].
  rewrite prepend_prepend. by rewrite <- app_assoc.
Qed.

Lemma run_found_plain_stopped h s f c tr_pre h2 :
  sel_fn s = VFun f ->
  sel_fnName s = fnName ->
  fn_length (F f) <> 3 -> fn_length (F f) <> 4 ->
  pre_hook pinefile exec h fnName = Some (c, tr_pre, h2) ->
  c <> Resolved ->
  run_found F cfg pinefile args exec h name s = Some (c, tr_pre, h2).
Proof.
  intros Hfn Hname H3 H4 Hpre Hc. unfold run_found.
  rewrite Hfn, Hname, dispatch_plain, Hpre by done.
  by destruct c.
Qed.

End Steps.

(** The hooks are recursive runs of the engine under the derived names. *)
Lemma pre_hook_resolvable pinefile exec h fnName preFunc h' :
  resolveTask h pinefile (KStr (getFnName fnName "pre" ":")) ":" = (preFunc, h') ->
  pre_hook pinefile exec h fnName
  = if truthy preFunc then exec h' (getFnName fnName "pre" ":")
    else Some (Resolved, [], h').
Proof. intros Hres. unfold pre_hook. by rewrite Hres. Qed.

Lemma post_hook_resolvable pinefile exec h fnName postFunc h' :
  resolveTask h pinefile (KStr (getFnName fnName "post" ":")) ":" = (postFunc, h') ->
  post_hook pinefile exec fnName h
  = if truthy postFunc then exec h' (getFnName fnName "post" ":")
    else Some (Resolved, [], h').
Proof. intros Hres. unfold post_hook. by rewrite Hres. Qed.

(* ------------------------------------------------------------------ *)
(** ** Failing tasks *)

(** C4, as stated, fails.  With [build] a function of three parameters
    that throws, the promise of [runTask] rejects with the error: no
    completion callback, no log, and the post-hook [postbuild], which
    resolves, is not run.  And a plain task that rejects with [undefined]
    reaches the callback, which logs nothing. *)
Lemma C4_counterexample :
  (runTask example_functions (Config VUndef VUndef) 2
     (ns_build_with "plugin_throws") (VObj 1) "build" (VObj 2)
   = Some (Rejected (ExnError "boom"),
           [EvCall "plugin_throws" [VObj 1; VStr "build"; VObj 2]],
           ns_build_with "plugin_throws")
   /\ fst (resolveTask (ns_build_with "plugin_throws") (VObj 1)
             (KStr "postbuild") ":") = VFun "fn3")
  /\ runTask example_functions (Config VUndef VUndef) 2
       (ns_build_with "rejects_with_nothing") (VObj 1) "build" (VObj 2)
     = Some (Resolved,
             [EvStarting "prebuild"; EvCall "fn2" [VObj 2];
              EvDone (ExnValue VUndef) false [EvFinished "prebuild"];
              EvStarting "build"; EvCall "rejects_with_nothing" [VObj 2];
              EvDone (ExnValue VUndef) false
                [EvFinished "build"; EvStarting "postbuild";
                 EvCall "fn3" [VObj 2];
                 EvDone (ExnValue VUndef) false [EvFinished "postbuild"]]],
             ns_build_with "rejects_with_nothing").
Proof. repeat split; vm_compute; reflexivity. Qed.

(** C4, amended.  For a selected function of plain-task shape (a declared
    parameter count other than 3 and 4) whose body throws or rejects with
    [e], once the pre-hook has settled without rejecting: the wrapper
    catches [e] and passes it to the completion callback, which logs it
    when it is truthy (an [Error] always is) and logs the finish; the
    post-hook then runs inside the callback; and the promise of [execute]
    resolves. *)
Theorem C4_plain_task_failure_reaches_the_callback
  (F : fid -> fundef) (cfg : config) (pinefile args : val) (n : nat)
  (h : heap) (name : string) (fn0 : val) (h1 : heap)
  (tr_s : list event) (s : selection) (f : fid) (e : exn)
  (tr_pre : list event) (h2 : heap)
  (c_post : completion) (tr_post : list event) (h3 : heap) :
  resolveTask h pinefile (KStr name) ":" = (fn0, h1) ->
  select F cfg pinefile args h1 fn0 name = (tr_s, inr s) ->
  sel_found s = true ->
  sel_fn s = VFun f ->
  fn_length (F f) <> 3 ->
  fn_length (F f) <> 4 ->
  fn_call (F f) [args] = RetThrow e
  \/ fn_call (F f) [args] = RetPromise (RejectedWith e) ->
  pre_hook pinefile (execute F cfg pinefile args n) h1 (sel_fnName s)
  = Some (Resolved, tr_pre, h2) ->
  post_hook pinefile (execute F cfg pinefile args n) (sel_fnName s) h2
  = Some (c_post, tr_post, h3) ->
  execute F cfg pinefile args (S n) h name
  = Some (Resolved,
          tr_s ++ tr_pre
          ++ [EvStarting name; EvCall f [args];
              EvDone e false (logged e ++ EvFinished name :: tr_post)],
          h3)
  /\ (truthy_exn e = true -> logged e = [EvLogError e])
  /\ (forall postFunc h2',
         resolveTask h2 pinefile
           (KStr (getFnName (sel_fnName s) "post" ":")) ":" = (postFunc, h2') ->
         truthy postFunc = true ->
         execute F cfg pinefile args n h2' (getFnName (sel_fnName s) "post" ":")
         = Some (c_post, tr_post, h3)).
Proof.
  intros Hres Hsel Hfound Hfn H3 H4 Hfail Hpre Hpost. split; [|split].
  - rewrite (execute_found _ _ _ _ _ _ _ _ _ _ _ Hres Hsel Hfound).
    rewrite (run_found_plain F cfg pinefile args _ name (sel_fnName s)
               h1 s f tr_pre h2) by done.
    rewrite (settle_then_done_eq pinefile _ name (sel_fnName s) h2 _
               c_post tr_post h3); [|by destruct Hfail as [-> | ->]|done].
    cbn [prepend]. rewrite <- app_assoc.
    by destruct Hfail as [-> | ->].
  - intros He. unfold logged. by rewrite He.
  - intros postFunc h2' Hres' Htruthy.
    rewrite (post_hook_resolvable _ _ _ _ _ _ Hres'), Htruthy in Hpost.
    exact Hpost.
Qed.

Lemma C4_plain_task_failure_witness :
  fn_call (example_functions "fails") [VObj 2] = RetThrow (ExnError "boom")
  /\ execute example_functions (Config VUndef VUndef) (VObj 1) (VObj 2) 2
       (ns_build_with "fails") "build"
     = Some (Resolved,
             [EvStarting "prebuild"; EvCall "fn2" [VObj 2];
              EvDone (ExnValue VUndef) false [EvFinished "prebuild"];
              EvStarting "build"; EvCall "fails" [VObj 2];
              EvDone (ExnError "boom") false
                [EvLogError (ExnError "boom"); EvFinished "build";
                 EvStarting "postbuild"; EvCall "fn3" [VObj 2];
                 EvDone (ExnValue VUndef) false [EvFinished "postbuild"]]],
             ns_build_with "fails").
Proof.
  split; [reflexivity|].
  apply (proj1
    (C4_plain_task_failure_reaches_the_callback
       example_functions (Config VUndef VUndef) (VObj 1) (VObj 2) 1
       (ns_build_with "fails") "build" (VFun "fails") (ns_build_with "fails")
       [] {| sel_fn := VFun "fails"; sel_fnName := "build"; sel_found := true |}
       "fails" (ExnError "boom")
       [EvStarting "prebuild"; EvCall "fn2" [VObj 2];
        EvDone (ExnValue VUndef) false [EvFinished "prebuild"]]
       (ns_build_with "fails")
       Resolved
       [EvStarting "postbuild"; EvCall "fn3" [VObj 2];
        EvDone (ExnValue VUndef) false [EvFinished "postbuild"]]
       (ns_build_with "fails")
       ltac:(vm_compute; reflexivity) ltac:(vm_compute; reflexivity)
       ltac:(reflexivity) ltac:(reflexivity)
       ltac:(vm_compute; discriminate) ltac:(vm_compute; discriminate)
       ltac:(left; reflexivity)
       ltac:(vm_compute; reflexivity) ltac:(vm_compute; reflexivity))).
Defined.

(* ------------------------------------------------------------------ *)
(** ** Runners that are not functions *)


(** What [dispatch] hands on as a value or a promise is what a call of
    the selected function gave back. *)
Lemma dispatch_produced F cfg pinefile args h fn name tr_d r :
  dispatch F cfg pinefile args h fn name = (tr_d, inr r) ->
  (r = RunTask fn /\ tr_d = [])
  \/ exists f xs,
       fn = VFun f /\ tr_d = [EvCall f xs]
       /\ (xs = [pinefile; VStr name; args]
           \/ xs = [pinefile; VStr name; args; cfg_options cfg])
       /\ match r with
          | RunVal v => fn_call (F f) xs = RetVal v
          | RunPromise p => fn_call (F f) xs = RetPromise p
          | RunTask _ => False
          end.
Proof.
  unfold dispatch.
  assert (forall xs,
             xs = [pinefile; VStr name; args]
             \/ xs = [pinefile; VStr name; args; cfg_options cfg] ->
             produced (call F fn xs) = (tr_d, inr r) ->
             exists f xs,
               fn = VFun f /\ tr_d = [EvCall f xs]
               /\ (xs = [pinefile; VStr name; args]
                   \/ xs = [pinefile; VStr name; args; cfg_options cfg])
               /\ match r with
                  | RunVal v => fn_call (F f) xs = RetVal v
                  | RunPromise p => fn_call (F f) xs = RetPromise p
                  | RunTask _ => False
                  end) as Hp.
  { intros xs Hxs. unfold call. destruct fn; try discriminate. cbn [produced].
    destruct (fn_call (F f) xs) eqn:Hcall; intros [= <- <-];
      exists f, xs; by repeat split. }
  destruct (declared_length F fn) as [[|[|[|[|[|k]]]]]|];
    try (intros [= <- <-]; by left); right.
  - eapply Hp; [|eassumption]. by left.
  - destruct (_ && _); (eapply Hp; [|eassumption]); [by right | by left].
Qed.



(* ------------------------------------------------------------------ *)
(** ** The order of dispatch, pre-hook and run *)

(** C6, as stated, fails: with [build] a function of three parameters and
    a pre-hook [prebuild], the function is called first, before the
    pre-hook is even started; only the runner it returned waits for the
    pre-hook. *)
Lemma C6_counterexample :
  fst (resolveTask (ns_build_with "plugin") (VObj 1) (KStr "build") ":")
  = VFun "plugin"
  /\ fn_length (example_functions "plugin") = 3
  /\ runTask example_functions (Config VUndef VUndef) 2
       (ns_build_with "plugin") (VObj 1) "build" (VObj 2)
     = Some (Resolved,
             [EvCall "plugin" [VObj 1; VStr "build"; VObj 2];
              EvStarting "prebuild"; EvCall "fn2" [VObj 2];
              EvDone (ExnValue VUndef) false [EvFinished "prebuild"];
              EvStarting "build"; EvCall "runner0" [];
              EvDone (ExnValue VUndef) false
                [EvFinished "build"; EvStarting "postbuild";
                 EvCall "fn3" [VObj 2];
                 EvDone (ExnValue VUndef) false [EvFinished "postbuild"]]],
             ns_build_with "plugin").
Proof. repeat split; vm_compute; reflexivity. Qed.

Lemma dispatch_plugin F cfg pinefile args h f name :
  fn_length (F f) = 3 \/ fn_length (F f) = 4 ->
  exists xs,
    (xs = [pinefile; VStr name; args]
     \/ xs = [pinefile; VStr name; args; cfg_options cfg])
    /\ dispatch F cfg pinefile args h (VFun f) name
       = produced ([EvCall f xs], fn_call (F f) xs).
Proof.
  intros Hlen. unfold dispatch. cbn [declared_length call].
  destruct Hlen as [-> | ->].
  - eexists. split; [by left | reflexivity].
  - destruct (_ && _); eexists; (split; [|reflexivity]); [by right | by left].
Qed.

(** C6, amended.  After resolution and selection the engine dispatches on
    the declared parameter count of the selected function, and only then
    derives and runs the pre-hook.  A function of plain-task shape is not
    called at dispatch: its call follows the whole run of the pre-hook and
    the start log, and does not happen when the pre-hook rejects or never
    settles.  A function of 3 or 4 parameters is called at dispatch, before
    the pre-hook; if it throws, the run rejects there; otherwise the runner
    it returned is invoked after the run of the pre-hook and the start
    log. *)
Theorem C6_pre_hook_runs_between_dispatch_and_runner
  (F : fid -> fundef) (cfg : config) (pinefile args : val) (n : nat)
  (h : heap) (name : string) (fn0 : val) (h1 : heap)
  (tr_s : list event) (s : selection) (f : fid) :
  resolveTask h pinefile (KStr name) ":" = (fn0, h1) ->
  select F cfg pinefile args h1 fn0 name = (tr_s, inr s) ->
  sel_found s = true ->
  sel_fn s = VFun f ->
  let exec := execute F cfg pinefile args n in
  (fn_length (F f) <> 3 -> fn_length (F f) <> 4 ->
   forall c tr_pre h2,
     pre_hook pinefile exec h1 (sel_fnName s) = Some (c, tr_pre, h2) ->
     execute F cfg pinefile args (S n) h name
     = match c with
       | Resolved =>
           prepend (tr_s ++ tr_pre ++ [EvStarting name; EvCall f [args]])
             (settle_then_done pinefile exec name (sel_fnName s) h2
                (fn_call (F f) [args]))
       | _ => Some (c, tr_s ++ tr_pre, h2)
       end)
  /\ (fn_length (F f) = 3 \/ fn_length (F f) = 4 ->
      exists xs,
        (xs = [pinefile; VStr name; args]
         \/ xs = [pinefile; VStr name; args; cfg_options cfg])
        /\ (forall e,
               fn_call (F f) xs = RetThrow e ->
               execute F cfg pinefile args (S n) h name
               = Some (Rejected e, tr_s ++ [EvCall f xs], h1))
        /\ (forall r c tr_pre h2,
               produced ([EvCall f xs], fn_call (F f) xs)
               = ([EvCall f xs], inr r) ->
               pre_hook pinefile exec h1 (sel_fnName s) = Some (c, tr_pre, h2) ->
               execute F cfg pinefile args (S n) h name
               = match c with
                 | Resolved =>
                     prepend (tr_s ++ EvCall f xs :: tr_pre ++ [EvStarting name])
                       (invoke F pinefile args exec name (sel_fnName s) h2 r)
                 | _ => Some (c, tr_s ++ EvCall f xs :: tr_pre, h2)
                 end)).
Proof.
  intros Hres Hsel Hfound Hfn. cbn zeta.
  rewrite (execute_found _ _ _ _ _ _ _ _ _ _ _ Hres Hsel Hfound).
  split.
  - intros H3 H4 c tr_pre h2 Hpre.
    assert (c = Resolved \/ c <> Resolved) as [-> | Hc]
      by (destruct c; auto).
    + rewrite (run_found_plain F cfg pinefile args _ name (sel_fnName s)
                 h1 s f tr_pre h2) by done.
      by rewrite prepend_prepend.
    + rewrite (run_found_plain_stopped F cfg pinefile args _ name
                 (sel_fnName s) h1 s f c tr_pre h2) by done.
      by destruct c.
  - intros Hlen.
    destruct (dispatch_plugin F cfg pinefile args h1 f name Hlen)
      as (xs & Hxs & Hd).
    exists xs. split; [done|]. unfold run_found. rewrite Hfn, Hd. split.
    + intros e ->. reflexivity.
    + intros r c tr_pre h2 -> ->.
      destruct c; cbn [prepend]; [|reflexivity..].
      rewrite prepend_prepend. reflexivity.
Qed.

Lemma C6_pre_hook_order_witness :
  fn_length (example_functions "fn1") <> 3
  /\ execute example_functions (Config VUndef VUndef) (VObj 1) (VObj 2) 2
       ns_build "build"
     = Some (Resolved,
             [EvStarting "prebuild"; EvCall "fn2" [VObj 2];
              EvDone (ExnValue VUndef) false [EvFinished "prebuild"];
              EvStarting "build"; EvCall "fn1" [VObj 2];
              EvDone (ExnValue VUndef) false
                [EvFinished "build"; EvStarting "postbuild";
                 EvCall "fn3" [VObj 2];
                 EvDone (ExnValue VUndef) false [EvFinished "postbuild"]]],
             ns_build).
Proof.
  split; [vm_compute; discriminate|].
  apply (proj1
    (C6_pre_hook_runs_between_dispatch_and_runner
       example_functions (Config VUndef VUndef) (VObj 1) (VObj 2) 1
       ns_build "build" (VFun "fn1") ns_build []
       {| sel_fn := VFun "fn1"; sel_fnName := "build"; sel_found := true |}
       "fn1"
       ltac:(vm_compute; reflexivity) ltac:(vm_compute; reflexivity)
       ltac:(reflexivity) ltac:(reflexivity))
    ltac:(vm_compute; discriminate) ltac:(vm_compute; discriminate)
    Resolved
    [EvStarting "prebuild"; EvCall "fn2" [VObj 2];
     EvDone (ExnValue VUndef) false [EvFinished "prebuild"]]
    ns_build
    ltac:(vm_compute; reflexivity)).
Defined.

(* ------------------------------------------------------------------ *)
(** ** A task between its two hooks *)

Lemma select_resolved_function F cfg pinefile args h f name :
  is_function (cfg_runner cfg) = false ->
  isObject (cfg_runner cfg) = false ->
  select F cfg pinefile args h (VFun f) name
  = ([], inr {| sel_fn := VFun f; sel_fnName := name; sel_found := true |}).
Proof. intros Hrun Hobj. unfold select. by rewrite Hrun, Hobj. Qed.

(** A plain task without hooks of its own. *)
Lemma execute_plain_leaf F cfg pinefile args n h name f v1 v2 :
  is_function (cfg_runner cfg) = false ->
  isObject (cfg_runner cfg) = false ->
  resolveTask h pinefile (KStr name) ":" = (VFun f, h) ->
  fn_length (F f) <> 3 -> fn_length (F f) <> 4 ->
  settles (fn_call (F f) [args]) = true ->
  resolveTask h pinefile (KStr (getFnName name "pre" ":")) ":" = (v1, h) ->
  truthy v1 = false ->
  resolveTask h pinefile (KStr (getFnName name "post" ":")) ":" = (v2, h) ->
  truthy v2 = false ->
  execute F cfg pinefile args (S n) h name
  = Some (Resolved,
          [EvStarting name; EvCall f [args];
           EvDone (delivered (fn_call (F f) [args])) false
             (logged (delivered (fn_call (F f) [args])) ++ [EvFinished name])],
          h).
Proof.
  intros Hrun Hobj Hres H3 H4 Hsettles Hpre Hv1 Hpost Hv2.
  rewrite (execute_found _ _ _ _ _ _ _ _ _ _ _ Hres
             (select_resolved_function _ _ _ _ _ _ _ Hrun Hobj) eq_refl).
  rewrite (run_found_plain F cfg pinefile args _ name name h _ f [] h);
    [|done..|by rewrite (pre_hook_resolvable _ _ _ _ _ _ Hpre), Hv1].
  rewrite (settle_then_done_eq pinefile _ name name h _ Resolved [] h);
    [done|done|].
  by rewrite (post_hook_resolvable _ _ _ _ _ _ Hpost), Hv2.
Qed.

(** C1, as stated, fails in its last clause: the post-hook does not start
    after the completion callback of [build] is over, it starts inside
    it. *)
Lemma C1_counterexample :
  let tr :=
    [EvStarting "prebuild"; EvCall "fn2" [VObj 2];
     EvDone (ExnValue VUndef) false [EvFinished "prebuild"];
     EvStarting "build"; EvCall "fn1" [VObj 2];
     EvDone (ExnValue VUndef) false
       [EvFinished "build"; EvStarting "postbuild"; EvCall "fn3" [VObj 2];
        EvDone (ExnValue VUndef) false [EvFinished "postbuild"]]] in
  runTask example_functions (Config VUndef VUndef) 2
    ns_build (VObj 1) "build" (VObj 2) = Some (Resolved, tr, ns_build)
  /\ starts_after_callback "build" "postbuild" tr = false
  /\ starts_inside_callback "build" "postbuild" tr = true.
Proof.
  cbn zeta. split; [vm_compute; reflexivity|]. split; reflexivity.
Qed.

(** C1, amended.  On [{ build: fn1, prebuild: fn2, postbuild: fn3 }] with
    three plain tasks that settle and no configured runner,
    [runTask(ns, "build", { x: 1 })] resolves after calling [fn2], [fn1],
    [fn3] in that order, each once and with the argument bag, whose [x]
    is 1.  The run of the pre-hook, its finish log included, is over
    before [build] starts; the completion callback of [build] logs (the
    error, if any, and) the finish and then runs the post-hook itself, as
    its last step. *)
Theorem C1_build_runs_between_its_hooks
  (F : fid -> fundef) (cfg : config) (n : nat) :
  cfg_runner cfg = VUndef ->
  (forall f, In f ["fn1"; "fn2"; "fn3"] ->
             fn_length (F f) <> 3 /\ fn_length (F f) <> 4
             /\ settles (fn_call (F f) [VObj 2]) = true) ->
  let e1 := delivered (fn_call (F "fn1") [VObj 2]) in
  let e2 := delivered (fn_call (F "fn2") [VObj 2]) in
  let e3 := delivered (fn_call (F "fn3") [VObj 2]) in
  let tr :=
    [EvStarting "prebuild"; EvCall "fn2" [VObj 2];
     EvDone e2 false (logged e2 ++ [EvFinished "prebuild"]);
     EvStarting "build"; EvCall "fn1" [VObj 2];
     EvDone e1 false
       (logged e1
        ++ [EvFinished "build";
            EvStarting "postbuild"; EvCall "fn3" [VObj 2];
            EvDone e3 false (logged e3 ++ [EvFinished "postbuild"])])] in
  runTask F cfg (S (S n)) ns_build (VObj 1) "build" (VObj 2)
  = Some (Resolved, tr, ns_build)
  /\ calls tr = [("fn2", [VObj 2]); ("fn1", [VObj 2]); ("fn3", [VObj 2])]
  /\ get_prop ns_build (VObj 2) "x" = VNum 1
  /\ starts_inside_callback "build" "postbuild" tr = true.
Proof.
  intros Hcfg Hfns. cbn zeta.
  assert (is_function (cfg_runner cfg) = false) as Hrun by by rewrite Hcfg.
  assert (isObject (cfg_runner cfg) = false) as Hobj by by rewrite Hcfg.
  destruct (Hfns "fn1") as (H13 & H14 & Hs1); [cbn; tauto|].
  destruct (Hfns "fn2") as (H23 & H24 & Hs2); [cbn; tauto|].
  destruct (Hfns "fn3") as (H33 & H34 & Hs3); [cbn; tauto|].
  pose proof (execute_plain_leaf F cfg (VObj 1) (VObj 2) n ns_build
                "prebuild" "fn2" (VBool false) (VBool false) Hrun Hobj
                ltac:(vm_compute; reflexivity) H23 H24 Hs2
                ltac:(vm_compute; reflexivity) eq_refl
                ltac:(vm_compute; reflexivity) eq_refl) as Hprebuild.
  pose proof (execute_plain_leaf F cfg (VObj 1) (VObj 2) n ns_build
                "postbuild" "fn3" (VBool false) (VBool false) Hrun Hobj
                ltac:(vm_compute; reflexivity) H33 H34 Hs3
                ltac:(vm_compute; reflexivity) eq_refl
                ltac:(vm_compute; reflexivity) eq_refl) as Hpostbuild.
  split; [|split; [|split]].
  - unfold runTask. cbn [args_or_empty].
    rewrite (execute_found F cfg (VObj 1) (VObj 2) (S n) ns_build "build"
               (VFun "fn1") ns_build [] _
               ltac:(vm_compute; reflexivity)
               (select_resolved_function _ _ _ _ _ _ _ Hrun Hobj) eq_refl).
    rewrite (run_found_plain F cfg (VObj 1) (VObj 2) _ "build" "build"
               ns_build
               {| sel_fn := VFun "fn1"; sel_fnName := "build";
                  sel_found := true |}
               "fn1" _ ns_build eq_refl eq_refl H13 H14
               (eq_trans
                  (pre_hook_resolvable (VObj 1) _ ns_build "build"
                     (VFun "fn2") ns_build ltac:(vm_compute; reflexivity))
                  Hprebuild)).
    rewrite (settle_then_done_eq (VObj 1) _ "build" "build" ns_build _
               _ _ ns_build Hs1
               (eq_trans
                  (post_hook_resolvable (VObj 1) _ ns_build "build"
                     (VFun "fn3") ns_build ltac:(vm_compute; reflexivity))
                  Hpostbuild)).
    reflexivity.
  - unfold calls, logged.
    destruct (truthy_exn _), (truthy_exn _), (truthy_exn _); reflexivity.
  - reflexivity.
  - unfold logged.
    destruct (truthy_exn _), (truthy_exn _), (truthy_exn _); reflexivity.
Qed.

Lemma C1_build_runs_between_its_hooks_witness :
  cfg_runner (Config VUndef VUndef) = VUndef
  /\ runTask example_functions (Config VUndef VUndef) 2
       ns_build (VObj 1) "build" (VObj 2)
     = Some (Resolved,
             [EvStarting "prebuild"; EvCall "fn2" [VObj 2];
              EvDone (ExnValue VUndef) false [EvFinished "prebuild"];
              EvStarting "build"; EvCall "fn1" [VObj 2];
              EvDone (ExnValue VUndef) false
                [EvFinished "build"; EvStarting "postbuild";
                 EvCall "fn3" [VObj 2];
                 EvDone (ExnValue VUndef) false [EvFinished "postbuild"]]],
             ns_build).
Proof.
  split; [reflexivity|].
  refine (proj1 (C1_build_runs_between_its_hooks example_functions
                   (Config VUndef VUndef) 0 eq_refl _)).
  intros f [<-|[<-|[<-|[]]]]; (split; [|split]);
    solve [vm_compute; discriminate | reflexivity].
Defined.

(* ------------------------------------------------------------------ *)
(** ** More fuel does not change a result *)

Section Monotone.

Variable F : fid -> fundef.
Variable cfg : config.
Variables pinefile args : val.
Variables exec exec' : heap -> string -> option result.
Hypothesis exec_le : forall h name r, exec h name = Some r -> exec' h name = Some r.

Lemma prepend_mono (tr : list event) (x x' : option result) (r : result) :
  (forall r0, x = Some r0 -> x' = Some r0) ->
  prepend tr x = Some r -> prepend tr x' = Some r.
Proof.
  intros Hx. destruct x as [[[c0 tr0] h0]|]; [|discriminate].
  by rewrite (Hx _ eq_refl).
Qed.

Lemma post_hook_mono fnName h r :
  post_hook pinefile exec fnName h = Some r ->
  post_hook pinefile exec' fnName h = Some r.
Proof using exec_le.
  unfold post_hook. destruct (resolveTask h pinefile _ ":") as [v h'].
  destruct (truthy v); [apply exec_le | done].
Qed.

Lemma callback_mono name fnName h e r :
  callback pinefile exec name fnName h e = Some r ->
  callback pinefile exec' name fnName h e = Some r.
Proof using exec_le.
  unfold callback. apply prepend_mono. intros r0. apply post_hook_mono.
Qed.

Lemma float_done_mono name fnName h e r :
  float_done pinefile exec name fnName h e = Some r ->
  float_done pinefile exec' name fnName h e = Some r.
Proof using exec_le.
  unfold float_done.
  destruct (callback pinefile exec name fnName h e) as [[[c0 body] h0]|] eqn:Hcb;
    [|discriminate].
  by rewrite (callback_mono _ _ _ _ _ Hcb).
Qed.

Lemma settle_then_done_mono name fnName h x r :
  settle_then_done pinefile exec name fnName h x = Some r ->
  settle_then_done pinefile exec' name fnName h x = Some r.
Proof using exec_le.
  destruct x as [v|[v|e|]|e]; cbn [settle_then_done];
    try apply float_done_mono; done.
Qed.

Lemma run_dones_mono name fnName uses final h r :
  run_dones pinefile exec name fnName h uses final = Some r ->
  run_dones pinefile exec' name fnName h uses final = Some r.
Proof using exec_le.
  revert h r. induction uses as [|[e awaited] uses IH]; intros h r;
    cbn [run_dones]; [done|].
  destruct (callback pinefile exec name fnName h e) as [[[c0 body] h0]|] eqn:Hcb;
    [|discriminate].
  rewrite (callback_mono _ _ _ _ _ Hcb).
  destruct awaited; [destruct c0|]; try done;
    apply prepend_mono; intros r0; apply IH.
Qed.

Lemma invoke_mono name fnName h x r :
  invoke F pinefile args exec name fnName h x = Some r ->
  invoke F pinefile args exec' name fnName h x = Some r.
Proof using exec_le.
  assert (forall v, invoke_value F pinefile exec name fnName h v = Some r ->
                    invoke_value F pinefile exec' name fnName h v = Some r)
    as Hval.
  { intros v. unfold invoke_value. destruct v; try apply settle_then_done_mono.
    destruct (Nat.eqb _ 0); apply prepend_mono; intros r0;
      [apply settle_then_done_mono | apply run_dones_mono]. }
  destruct x as [v|[v|e|]|fn]; cbn [invoke]; try apply Hval; try done.
  unfold invoke_task. destruct (task_body F args fn) as [tr0 x].
  apply prepend_mono. intros r0. apply settle_then_done_mono.
Qed.

Lemma pre_hook_mono fnName h r :
  pre_hook pinefile exec h fnName = Some r ->
  pre_hook pinefile exec' h fnName = Some r.
Proof using exec_le.
  unfold pre_hook. destruct (resolveTask h pinefile _ ":") as [v h'].
  destruct (truthy v); [apply exec_le | done].
Qed.

Lemma run_found_mono h name s r :
  run_found F cfg pinefile args exec h name s = Some r ->
  run_found F cfg pinefile args exec' h name s = Some r.
Proof using exec_le.
  unfold run_found.
  destruct (dispatch F cfg pinefile args h (sel_fn s) name) as [tr_d [e|x]];
    [done|].
  destruct (pre_hook pinefile exec h (sel_fnName s))
    as [[[c0 tr_pre] h0]|] eqn:Hpre; [|discriminate].
  rewrite (pre_hook_mono _ _ _ Hpre).
  destruct c0; try done. apply prepend_mono. intros r0. apply invoke_mono.
Qed.

End Monotone.

Lemma execute_fuel_S F cfg pinefile args n :
  forall h name r,
    execute F cfg pinefile args n h name = Some r ->
    execute F cfg pinefile args (S n) h name = Some r.
Proof.
  induction n as [|n IH]; intros h name r; [discriminate|].
  cbn [execute].
  destruct (resolveTask h pinefile (KStr name) ":") as [fn0 h1].
  destruct (select F cfg pinefile args h1 fn0 name) as [tr [e|s]]; [done|].
  destruct (negb (sel_found s)); [done|].
  apply prepend_mono. intros r0. apply run_found_mono. exact IH.
Qed.

(** A run that comes back with some fuel comes back the same with more. *)
Lemma execute_fuel_mono F cfg pinefile args n m h name r :
  n <= m ->
  execute F cfg pinefile args n h name = Some r ->
  execute F cfg pinefile args m h name = Some r.
Proof.
  induction 1 as [|m Hle IH]; [done|].
  intros Hn. by apply execute_fuel_S, IH.
Qed.

(* ------------------------------------------------------------------ *)
(** ** Why fuel: hooks of a cyclic namespace *)

Lemma cyclic_name_head (k : nat) : exists rest, cyclic_name k = String "a"%char rest.
Proof.
  induction k as [|k [rest IH]]; [by exists ""|].
  cbn [cyclic_name]. rewrite IH, append_cons. eauto.
Qed.

Lemma walk_snoc (h : heap) (obj : val) (l : list string) (x : string) :
  walk h obj (l ++ [x])
  = (if truthy (get_prop h (walk h obj l) x)
     then get_prop h (walk h obj l) x else VBool false).
Proof. unfold walk. by rewrite fold_left_app. Qed.

Lemma walk_cyclic (k : nat) :
  walk ns_cyclic (VObj 1) (split (cyclic_name k) ":") = VObj 2.
Proof.
  induction k as [|k IH]; [vm_compute; reflexivity|].
  cbn [cyclic_name]. unfold split in *.
  change ":predefault" with (String ":"%char "predefault").
  rewrite split_go_char_app, (split_go_free ":"%char "predefault" "") by reflexivity.
  rewrite walk_snoc, IH. vm_compute. reflexivity.
Qed.

Lemma resolveTask_cyclic (k : nat) :
  resolveTask ns_cyclic (VObj 1) (KStr (cyclic_name k)) ":"
  = (VObj 2, ns_cyclic).
Proof.
  unfold resolveTask. destruct (cyclic_name_head k) as [rest Hk].
  assert (key_falsy (KStr (cyclic_name k)) = false) as -> by by rewrite Hk.
  rewrite walk_cyclic. vm_compute. reflexivity.
Qed.

(** On the cyclic namespace every pre-hook resolves to a task that has a
    pre-hook of its own: [execute] never gets to run anything, whatever
    the fuel. *)
Theorem hooks_of_a_cyclic_namespace_never_return
  (F : fid -> fundef) (cfg : config) (args : val) (n : nat) :
  cfg_runner cfg = VUndef ->
  fn_length (F "task") <> 3 -> fn_length (F "task") <> 4 ->
  execute F cfg (VObj 1) args n ns_cyclic "a" = None.
Proof.
  intros Hcfg H3 H4. change "a" with (cyclic_name 0). generalize 0 as k.
  induction n as [|n IH]; intros k; [reflexivity|].
  cbn [execute]. rewrite resolveTask_cyclic.
  destruct (cyclic_name_head k) as [rest Hk].
  assert (select F cfg (VObj 1) args ns_cyclic (VObj 2) (cyclic_name k)
          = ([], inr {| sel_fn := VFun "task";
                        sel_fnName := cyclic_name k +:+ ":default";
                        sel_found := true |})) as ->.
  { unfold select. rewrite Hcfg. cbn [is_function isObject andb].
    rewrite Hk. vm_compute. reflexivity. }
  cbn [sel_found negb]. unfold run_found. cbn [sel_fn sel_fnName].
  rewrite dispatch_plain by done. unfold pre_hook.
  change (cyclic_name k +:+ ":default")
    with (cyclic_name k +:+ String ":"%char "default").
  rewrite (getFnName_namespaced ":"%char (cyclic_name k) "default" "pre") by reflexivity.
  change (cyclic_name k +:+ String ":"%char ("pre" +:+ "default"))
    with (cyclic_name (S k)).
  rewrite resolveTask_cyclic. cbn [truthy]. by rewrite IH.
Qed.

Lemma hooks_of_a_cyclic_namespace_witness :
  execute example_functions (Config VUndef VUndef) (VObj 1) (VObj 2) 5
    ns_cyclic "a" = None.
Proof.
  apply hooks_of_a_cyclic_namespace_never_return;
    [reflexivity | vm_compute; discriminate..].
Defined.

(* ------------------------------------------------------------------ *)
(** * Further properties of the engine *)

(** ** Hook names *)

Lemma length_append (s t : string) :
  String.length (s +:+ t) = String.length s + String.length t.
Proof.
  induction s as [|c s IH]; [reflexivity|].
  rewrite append_cons. cbn [String.length]. by rewrite IH.
Qed.

Lemma length_join_prefixed (sep prefix lastName : string) (init : list string) :
  String.length (join sep (init ++ [prefix +:+ lastName]))
  = String.length prefix + String.length (join sep (init ++ [lastName])).
Proof.
  induction init as [|y init IH].
  - cbn. apply length_append.
  - change ((y :: init) ++ [prefix +:+ lastName])
      with (y :: (init ++ [prefix +:+ lastName])).
    change ((y :: init) ++ [lastName]) with (y :: (init ++ [lastName])).
    rewrite !join_cons by (by destruct init).
    rewrite !length_append, IH. lia.
Qed.

Lemma getFnName_decomposed (name prefix sep : string) :
  sep <> "" ->
  exists init lastName,
    join sep (init ++ [lastName]) = name
    /\ getFnName name prefix sep = join sep (init ++ [prefix +:+ lastName]).
Proof.
  intros Hsep.
  destruct (last (split name sep)) as [lastName|] eqn:Hlast.
  - exists (removelast (split name sep)), lastName.
    rewrite <- (removelast_with_last _ _ Hlast).
    split; [by apply join_split|].
    unfold getFnName, prefixed_last. by rewrite Hlast.
  - apply last_None in Hlast. by apply split_nonempty in Hlast.
Qed.

(** The hook name is as much longer than the task name as the prefix is
    long. *)
Lemma getFnName_length (name prefix sep : string) :
  sep <> "" ->
  String.length (getFnName name prefix sep)
  = String.length prefix + String.length name.
Proof.
  intros Hsep.
  destruct (getFnName_decomposed name prefix sep Hsep)
    as (init & lastName & Hname & ->).
  by rewrite length_join_prefixed, Hname.
Qed.

(** X1. A hook is never the task itself: the names of the pre-hook and of
    the post-hook that [execute] derives for a selected task are strictly
    longer than the name it was asked to run, so that names only grow
    along nested hooks. *)
Theorem hook_names_are_strictly_longer
  (F : fid -> fundef) (cfg : config) (pinefile args : val)
  (h : heap) (fn0 : val) (name : string) (tr : list event) (s : selection) :
  select F cfg pinefile args h fn0 name = (tr, inr s) ->
  String.length name < String.length (getFnName (sel_fnName s) "pre" ":")
  /\ String.length name < String.length (getFnName (sel_fnName s) "post" ":")
  /\ getFnName (sel_fnName s) "pre" ":" <> name
  /\ getFnName (sel_fnName s) "post" ":" <> name.
Proof.
  intros Hsel.
  assert (String.length name <= String.length (sel_fnName s)) as Hlen.
  { revert Hsel. unfold select.
    destruct (if is_function (cfg_runner cfg) then _ else _)
      as [tr0 [e|[fn b]]]; [discriminate|].
    destruct (isObject fn && truthy (get_prop h fn "default")).
    - intros [= _ <-]. cbn [sel_fnName].
      destruct (String.eqb_spec name "default") as [->|Hne]; cbn [negb].
      + done.
      + rewrite length_append. lia.
    - by intros [= _ <-]. }
  rewrite !getFnName_length by done. cbn [String.length].
  repeat split; try lia.
  - intros Heq. apply (f_equal String.length) in Heq.
    rewrite getFnName_length in Heq by done. cbn [String.length] in Heq. lia.
  - intros Heq. apply (f_equal String.length) in Heq.
    rewrite getFnName_length in Heq by done. cbn [String.length] in Heq. lia.
Qed.

Lemma hook_names_witness :
  String.length "build"
  < String.length
      (getFnName
         (sel_fnName {| sel_fn := VFun "fn1"; sel_fnName := "build";
                        sel_found := true |}) "pre" ":").
Proof.
  apply (hook_names_are_strictly_longer example_functions
           (Config VUndef VUndef) (VObj 1) (VObj 2) ns_build (VFun "fn1")
           "build" []
           {| sel_fn := VFun "fn1"; sel_fnName := "build"; sel_found := true |}).
  reflexivity.
Defined.

(** X2. With the empty prefix (its default) [getFnName] gives the name
    back, whatever its segments, and in general the result is longer than
    the name by the length of the prefix. *)
Theorem getFnName_empty_prefix_is_identity (name prefix sep : string) :
  sep <> "" ->
  getFnName name "" sep = name
  /\ String.length (getFnName name prefix sep)
     = String.length prefix + String.length name.
Proof.
  intros Hsep. split; [|by apply getFnName_length].
  destruct (getFnName_decomposed name "" sep Hsep)
    as (init & lastName & Hname & ->).
  exact Hname.
Qed.

Lemma getFnName_empty_prefix_witness :
  getFnName "deploy:assets:sync" "" ":" = "deploy:assets:sync".
Proof.
  apply (proj1 (getFnName_empty_prefix_is_identity "deploy:assets:sync" "pre" ":"
                  ltac:(discriminate))).
Defined.

(* ------------------------------------------------------------------ *)
(** ** Resolution: missing segments, repeated calls, defaults *)





Lemma get_prop_set_prop_ne (h : heap) (t v x : val) (k k' : string) :
  k <> k' -> get_prop (set_prop h t k x) v k' = get_prop h v k'.
Proof.
  intros Hne. destruct t; try reflexivity. destruct v; try reflexivity.
  cbn [set_prop get_prop].
  destruct (decide (l = l0)) as [->|Hl].
  - rewrite lookup_alter_eq. destruct (h !! l0) as [o|]; [|reflexivity].
    cbn. by rewrite lookup_insert_ne.
  - by rewrite lookup_alter_ne.
Qed.

Lemma get_prop_set_prop_eq (h : heap) (l : loc) (o : gmap string val)
    (x : val) (k : string) :
  h !! l = Some o -> get_prop (set_prop h (VObj l) k x) (VObj l) k = x.
Proof.
  intros Hl. cbn [set_prop get_prop]. rewrite lookup_alter_eq, Hl. cbn.
  by rewrite lookup_insert_eq.
Qed.

Lemma keys_length_set_prop_other (h : heap) (t v x : val) (k : string) :
  isObject v = false -> keys_length (set_prop h t k x) v = keys_length h v.
Proof. by destruct v. Qed.

Lemma walk_set_default (h : heap) (t x obj : val) (l : list string) :
  Forall (fun k => k <> "default") l ->
  walk (set_prop h t "default" x) obj l = walk h obj l.
Proof.
  intros Hl. revert obj. induction Hl as [|k l Hk Hl IH]; intros obj;
    [reflexivity|].
  cbn [walk fold_left]. rewrite get_prop_set_prop_ne by done. apply IH.
Qed.

Lemma resolveTask_returns (h : heap) (obj : val) (k : key) (sep : string) :
  let task := walk h obj (segments k sep) in
  fst (resolveTask h obj k sep) =
    if key_falsy k then VBool false
    else if is_function task then task
    else if isObject task
    then (if truthy (get_prop h task "_") then get_prop h task "_" else task)
    else VBool false.
Proof.
  cbn zeta. unfold resolveTask. destruct (key_falsy k); [reflexivity|].
  fold (segments k sep). cbn zeta.
  destruct (walk h obj (segments k sep)) eqn:Hwalk; try reflexivity;
    cbn [isObject negb andb is_function].
  destruct (truthy (get_prop h (VObj l) "_")); [reflexivity|].
  by destruct (isObject (get_prop h (VObj l) "default")).
Qed.

(** X4. Resolving the same path again gives the same value and writes
    nothing more, provided no segment of the path is [default] and the
    [_] entry of the resolved node's [default] is not itself a mapping:
    the flattening of [default] happens once. *)
Theorem resolveTask_again_changes_nothing
  (h : heap) (obj : val) (k : key) (sep : string) :
  let task := walk h obj (segments k sep) in
  Forall (fun seg => seg <> "default") (segments k sep) ->
  isObject (get_prop h (get_prop h task "default") "_") = false ->
  resolveTask (snd (resolveTask h obj k sep)) obj k sep
  = (fst (resolveTask h obj k sep), snd (resolveTask h obj k sep)).
Proof.
  cbn zeta. intros Hsegs Hflat.
  pose proof (resolveTask_heap h obj k sep) as Hheap. cbn zeta in Hheap.
  pose proof (resolveTask_returns h obj k sep) as Hval.
  cbn zeta in Hval.
  set (task := walk h obj (segments k sep)) in *.
  destruct (resolveTask h obj k sep) as [v h'] eqn:Hres. cbn [fst snd] in *.
  subst h'.
  destruct (negb (key_falsy k) && isObject task
            && negb (truthy (get_prop h task "_"))
            && isObject (get_prop h task "default")) eqn:Hcond;
    [|exact Hres].
  apply andb_true_iff in Hcond as [Hcond Hdef].
  apply andb_true_iff in Hcond as [Hcond Hunder].
  apply andb_true_iff in Hcond as [Hkey Hobj].
  apply negb_true_iff in Hkey, Hunder.
  destruct task as [| | | | | |l] eqn:Htask; try discriminate.
  assert (exists o, h !! l = Some o) as [o Hl].
  { revert Hdef. cbn [get_prop]. destruct (h !! l); [eauto | discriminate]. }
  unfold resolveTask. rewrite Hkey. fold (segments k sep). cbn zeta.
  rewrite walk_set_default by done. fold task. rewrite Htask.
  cbn [isObject negb andb].
  rewrite get_prop_set_prop_ne by done. rewrite Hunder.
  rewrite (get_prop_set_prop_eq _ _ o) by done. rewrite Hflat.
  rewrite Hval, Hkey. cbn [is_function isObject]. by rewrite Hunder.
Qed.

Lemma resolveTask_again_witness :
  resolveTask (snd (resolveTask ns_nested_default (VObj 1) (KStr "a") ":"))
    (VObj 1) (KStr "a") ":"
  = (fst (resolveTask ns_nested_default (VObj 1) (KStr "a") ":"),
     snd (resolveTask ns_nested_default (VObj 1) (KStr "a") ":")).
Proof.
  apply (resolveTask_again_changes_nothing ns_nested_default (VObj 1)
           (KStr "a") ":").
  - repeat constructor; discriminate.
  - reflexivity.
Defined.

(** X5. A namespace without a truthy [_] whose [default] is a function,
    or a mapping with a function as [_], is run through that function:
    [resolveTask] returns the namespace with [default] holding the
    function, selection (without a configured runner) takes it as found
    under the name [name:default] (or [default] itself), and the hooks
    are looked up as [name:predefault] and [name:postdefault]. *)
Theorem namespace_default_runs_as_name_default
  (F : fid -> fundef) (cfg : config) (pinefile args : val)
  (h : heap) (name : string) (l : loc) (f : fid) :
  is_function (cfg_runner cfg) = false ->
  isObject (cfg_runner cfg) = false ->
  name <> "" ->
  walk h pinefile (split name ":") = VObj l ->
  truthy (get_prop h (VObj l) "_") = false ->
  get_prop h (VObj l) "default" = VFun f
  \/ (isObject (get_prop h (VObj l) "default") = true
      /\ get_prop h (get_prop h (VObj l) "default") "_" = VFun f) ->
  let fn0 := fst (resolveTask h pinefile (KStr name) ":") in
  let h1 := snd (resolveTask h pinefile (KStr name) ":") in
  fn0 = VObj l
  /\ get_prop h1 (VObj l) "default" = VFun f
  /\ select F cfg pinefile args h1 fn0 name
     = ([], inr {| sel_fn := VFun f;
                   sel_fnName := if negb (String.eqb name "default")
                                 then name +:+ ":default" else "default";
                   sel_found := true |})
  /\ getFnName (name +:+ ":default") "pre" ":" = name +:+ ":predefault"
  /\ getFnName (name +:+ ":default") "post" ":" = name +:+ ":postdefault".
Proof.
  intros Hrun Hobj Hname Hwalk Hunder Hdef. cbn zeta.
  assert (resolveTask h pinefile (KStr name) ":" = (VObj l, h)
          /\ get_prop h (VObj l) "default" = VFun f
          \/ exists x,
               resolveTask h pinefile (KStr name) ":"
               = (VObj l, set_prop h (VObj l) "default" x)
               /\ get_prop (set_prop h (VObj l) "default" x) (VObj l) "default"
                  = VFun f) as Hres.
  { unfold resolveTask. cbn [key_falsy].
    assert (String.eqb name "" = false) as -> by by apply String.eqb_neq.
    rewrite Hwalk. cbn [isObject negb andb]. rewrite Hunder.
    destruct Hdef as [Hdef | [Hdef Hf]].
    - left. by rewrite Hdef.
    - right. rewrite Hdef. eexists. split; [reflexivity|]. rewrite Hf.
      revert Hdef. cbn [get_prop].
      destruct (h !! l) as [o|] eqn:Hl; [|discriminate]. intros _.
      by apply (get_prop_set_prop_eq h l o). }
  assert (forall h1,
             get_prop h1 (VObj l) "default" = VFun f ->
             select F cfg pinefile args h1 (VObj l) name
             = ([], inr {| sel_fn := VFun f;
                           sel_fnName := if negb (String.eqb name "default")
                                         then name +:+ ":default" else "default";
                           sel_found := true |})) as Hsel.
  { intros h1 Hf. unfold select. rewrite Hrun, Hobj. cbn [andb is_function].
    cbn [isObject andb]. by rewrite Hf. }
  split; [|split; [|split; [|split]]].
  - by destruct Hres as [[-> _] | (x & -> & _)].
  - by destruct Hres as [[-> ?] | (x & -> & ?)].
  - destruct Hres as [[-> ?] | (x & -> & ?)]; cbn [fst snd]; by apply Hsel.
  - change (name +:+ ":default") with (name +:+ String ":"%char "default").
    by rewrite (getFnName_namespaced ":"%char name "default" "pre").
  - change (name +:+ ":default") with (name +:+ String ":"%char "default").
    by rewrite (getFnName_namespaced ":"%char name "default" "post").
Qed.

Lemma namespace_default_witness :
  fst (resolveTask ns_nested_default (VObj 1) (KStr "a") ":") = VObj 2
  /\ select plain_functions (Config VUndef VUndef) (VObj 1) (VObj 4)
       (snd (resolveTask ns_nested_default (VObj 1) (KStr "a") ":"))
       (fst (resolveTask ns_nested_default (VObj 1) (KStr "a") ":")) "a"
     = ([], inr {| sel_fn := VFun "g"; sel_fnName := "a:default";
                   sel_found := true |}).
Proof.
  pose proof (namespace_default_runs_as_name_default plain_functions
                (Config VUndef VUndef) (VObj 1) (VObj 4) ns_nested_default
                "a" 2%positive "g" eq_refl eq_refl ltac:(discriminate)
                eq_refl eq_refl ltac:(right; split; reflexivity))
    as (H1 & _ & H3 & _).
  split; [exact H1 | exact H3].
Defined.

(* ------------------------------------------------------------------ *)
(** ** Namespaces of plain tasks *)








Section PlainTasks.

Variable F : fid -> fundef.
Variable cfg : config.
Variables pinefile args : val.

Hypothesis no_runner_object : isObject (cfg_runner cfg) = false.
Hypothesis all_plain : forall f, fn_length (F f) <> 3 /\ fn_length (F f) <> 4.




Hypothesis all_settle : forall f xs, settles (fn_call (F f) xs) = true.


End PlainTasks.





(* ------------------------------------------------------------------ *)
(** ** Runners: failures that are caught and failures that are not *)

(** X8. A runner without parameters is wrapped by [doneify]: when the
    selected function produced (directly or through a promise) such a
    runner and the runner throws or rejects with [e], the error is passed
    to the completion callback, which logs it when truthy, logs the finish
    and runs the post-hook; the promise of [execute] resolves. *)
Theorem doneify_delivers_the_error_of_the_runner
  (F : fid -> fundef) (cfg : config) (pinefile args : val) (n : nat)
  (h : heap) (name : string) (fn0 : val) (h1 : heap)
  (tr_s tr_d : list event) (s : selection) (r : runner) (g : fid) (e : exn)
  (tr_pre : list event) (h2 : heap)
  (c_post : completion) (tr_post : list event) (h3 : heap) :
  resolveTask h pinefile (KStr name) ":" = (fn0, h1) ->
  select F cfg pinefile args h1 fn0 name = (tr_s, inr s) ->
  sel_found s = true ->
  dispatch F cfg pinefile args h1 (sel_fn s) name = (tr_d, inr r) ->
  r = RunVal (VFun g) \/ r = RunPromise (Fulfilled (VFun g)) ->
  fn_length (F g) = 0 ->
  fn_call (F g) [] = RetThrow e
  \/ fn_call (F g) [] = RetPromise (RejectedWith e) ->
  pre_hook pinefile (execute F cfg pinefile args n) h1 (sel_fnName s)
  = Some (Resolved, tr_pre, h2) ->
  post_hook pinefile (execute F cfg pinefile args n) (sel_fnName s) h2
  = Some (c_post, tr_post, h3) ->
  execute F cfg pinefile args (S n) h name
  = Some (Resolved,
          tr_s ++ tr_d ++ tr_pre
          ++ [EvStarting name; EvCall g [];
              EvDone e false (logged e ++ EvFinished name :: tr_post)],
          h3).
Proof.
  intros Hres Hsel Hfound Hd Hr Hlen Hfail Hpre Hpost.
  rewrite (execute_found _ _ _ _ _ _ _ _ _ _ _ Hres Hsel Hfound).
  unfold run_found. rewrite Hd, Hpre.
  assert (invoke F pinefile args (execute F cfg pinefile args n) name
            (sel_fnName s) h2 r
          = Some (Resolved,
                  [EvCall g [];
                   EvDone e false (logged e ++ EvFinished name :: tr_post)],
                  h3)) as ->.
  { assert (invoke F pinefile args (execute F cfg pinefile args n) name
              (sel_fnName s) h2 r
            = invoke_value F pinefile (execute F cfg pinefile args n) name
                (sel_fnName s) h2 (VFun g)) as ->
      by by destruct Hr as [-> | ->].
    unfold invoke_value. rewrite Hlen. cbn [Nat.eqb].
    rewrite (settle_then_done_eq pinefile _ name (sel_fnName s) h2 _
               c_post tr_post h3); [|by destruct Hfail as [-> | ->]|done].
    by destruct Hfail as [-> | ->]. }
  cbn [prepend]. by rewrite <- !app_assoc.
Qed.

Lemma doneify_delivers_witness :
  fn_length (runner_functions "rejecting_runner") = 0
  /\ execute runner_functions (Config VUndef VUndef) (VObj 1) (VObj 2) 2
       (ns_build_with "plugin_rejecting") "build"
     = Some (Resolved,
             [EvCall "plugin_rejecting" [VObj 1; VStr "build"; VObj 2];
              EvStarting "prebuild"; EvCall "fn2" [VObj 2];
              EvDone (ExnValue VUndef) false [EvFinished "prebuild"];
              EvStarting "build"; EvCall "rejecting_runner" [];
              EvDone (ExnError "boom") false
                [EvLogError (ExnError "boom"); EvFinished "build";
                 EvStarting "postbuild"; EvCall "fn3" [VObj 2];
                 EvDone (ExnValue VUndef) false [EvFinished "postbuild"]]],
             ns_build_with "plugin_rejecting").
Proof.
  split; [reflexivity|].
  apply (doneify_delivers_the_error_of_the_runner
           runner_functions (Config VUndef VUndef) (VObj 1) (VObj 2) 1
           (ns_build_with "plugin_rejecting") "build" (VFun "plugin_rejecting")
           (ns_build_with "plugin_rejecting")
           [] [EvCall "plugin_rejecting" [VObj 1; VStr "build"; VObj 2]]
           {| sel_fn := VFun "plugin_rejecting"; sel_fnName := "build";
              sel_found := true |}
           (RunVal (VFun "rejecting_runner")) "rejecting_runner"
           (ExnError "boom")
           [EvStarting "prebuild"; EvCall "fn2" [VObj 2];
            EvDone (ExnValue VUndef) false [EvFinished "prebuild"]]
           (ns_build_with "plugin_rejecting")
           Resolved
           [EvStarting "postbuild"; EvCall "fn3" [VObj 2];
            EvDone (ExnValue VUndef) false [EvFinished "postbuild"]]
           (ns_build_with "plugin_rejecting")
           ltac:(vm_compute; reflexivity) ltac:(vm_compute; reflexivity)
           ltac:(reflexivity) ltac:(vm_compute; reflexivity)
           ltac:(left; reflexivity) ltac:(reflexivity)
           ltac:(right; reflexivity)
           ltac:(vm_compute; reflexivity) ltac:(vm_compute; reflexivity)).
Defined.

(** X9. Nothing catches what happens outside the wrappers.  When the
    promise the selected function returned for the runner rejects with
    [e], the promise of [execute] rejects with [e] right after the start
    log.  When the runner takes the completion callback and comes back
    without having called it, nothing more is logged: no finish, no
    post-hook, and the promise of [execute] settles as the runner's call
    does, rejecting with what it threw. *)
Theorem failures_outside_the_wrappers_are_not_caught
  (F : fid -> fundef) (cfg : config) (pinefile args : val) (n : nat)
  (h : heap) (name : string) (fn0 : val) (h1 : heap)
  (tr_s tr_d : list event) (s : selection) (r : runner)
  (tr_pre : list event) (h2 : heap) :
  resolveTask h pinefile (KStr name) ":" = (fn0, h1) ->
  select F cfg pinefile args h1 fn0 name = (tr_s, inr s) ->
  sel_found s = true ->
  dispatch F cfg pinefile args h1 (sel_fn s) name = (tr_d, inr r) ->
  pre_hook pinefile (execute F cfg pinefile args n) h1 (sel_fnName s)
  = Some (Resolved, tr_pre, h2) ->
  (forall e,
      r = RunPromise (RejectedWith e) ->
      execute F cfg pinefile args (S n) h name
      = Some (Rejected e, tr_s ++ tr_d ++ tr_pre ++ [EvStarting name], h2))
  /\ (forall g final,
         r = RunVal (VFun g) \/ r = RunPromise (Fulfilled (VFun g)) ->
         fn_length (F g) <> 0 ->
         fn_run (F g) = ([], final) ->
         execute F cfg pinefile args (S n) h name
         = Some (completion_of_ret final,
                 tr_s ++ tr_d ++ tr_pre ++ [EvStarting name; EvRun g], h2)).
Proof.
  intros Hres Hsel Hfound Hd Hpre.
  rewrite (execute_found _ _ _ _ _ _ _ _ _ _ _ Hres Hsel Hfound).
  unfold run_found. rewrite Hd, Hpre. split.
  - intros e ->. cbn [invoke prepend]. by rewrite !app_nil_r.
  - intros g final Hr Hlen Hrun.
    assert (invoke F pinefile args (execute F cfg pinefile args n) name
              (sel_fnName s) h2 r
            = invoke_value F pinefile (execute F cfg pinefile args n) name
                (sel_fnName s) h2 (VFun g)) as ->
      by by destruct Hr as [-> | ->].
    unfold invoke_value.
    destruct (Nat.eqb_spec (fn_length (F g)) 0) as [|_]; [done|].
    rewrite Hrun. cbn [fst snd run_dones prepend].
    by rewrite <- !app_assoc.
Qed.

Lemma failures_outside_the_wrappers_witness :
  execute runner_functions (Config VUndef VUndef) (VObj 1) (VObj 2) 2
    (ns_build_with "plugin_silent") "build"
  = Some (Rejected (ExnError "boom"),
          [EvCall "plugin_silent" [VObj 1; VStr "build"; VObj 2];
           EvStarting "prebuild"; EvCall "fn2" [VObj 2];
           EvDone (ExnValue VUndef) false [EvFinished "prebuild"];
           EvStarting "build"; EvRun "silent_runner"],
          ns_build_with "plugin_silent").
Proof.
  apply (proj2
    (failures_outside_the_wrappers_are_not_caught
       runner_functions (Config VUndef VUndef) (VObj 1) (VObj 2) 1
       (ns_build_with "plugin_silent") "build" (VFun "plugin_silent")
       (ns_build_with "plugin_silent")
       [] [EvCall "plugin_silent" [VObj 1; VStr "build"; VObj 2]]
       {| sel_fn := VFun "plugin_silent"; sel_fnName := "build";
          sel_found := true |}
       (RunVal (VFun "silent_runner"))
       [EvStarting "prebuild"; EvCall "fn2" [VObj 2];
        EvDone (ExnValue VUndef) false [EvFinished "prebuild"]]
       (ns_build_with "plugin_silent")
       ltac:(vm_compute; reflexivity) ltac:(vm_compute; reflexivity)
       ltac:(reflexivity) ltac:(vm_compute; reflexivity)
       ltac:(vm_compute; reflexivity))
    "silent_runner" (RetThrow (ExnError "boom"))
    ltac:(left; reflexivity) ltac:(vm_compute; discriminate)
    ltac:(reflexivity)).
Defined.

(* ------------------------------------------------------------------ *)
(** ** What user functions are called with *)

Section Arguments.

Variable F : fid -> fundef.
Variable cfg : config.
Variables pinefile args : val.

Local Abbreviation ok := (calls_ok cfg pinefile args).

Lemma ok_nil : ok [].
Proof. constructor. Qed.

Lemma ok_app a b : ok a -> ok b -> ok (a ++ b).
Proof. unfold calls_ok. rewrite calls_app. apply Forall_app_2. Qed.

Lemma ok_done e a body : ok body -> ok [EvDone e a body].
Proof. unfold calls_ok, calls. cbn. by rewrite app_nil_r. Qed.

Lemma ok_logged e : ok (logged e).
Proof. unfold logged. destruct (truthy_exn e); constructor. Qed.

Lemma ok_call f xs : engine_arguments cfg pinefile args xs -> ok [EvCall f xs].
Proof.
  intros Hxs. unfold calls_ok, calls. cbn. constructor; [exact Hxs | constructor].
Qed.

Lemma ok_task f : ok [EvCall f [args]].
Proof. apply ok_call. by left. Qed.

Lemma ok_runner f : ok [EvCall f []].
Proof. apply ok_call. right. by left. Qed.

Lemma ok_plugin f name : ok [EvCall f [pinefile; VStr name; args]].
Proof. apply ok_call. right. right. exists name. by left. Qed.

Lemma ok_plugin_options f name :
  ok [EvCall f [pinefile; VStr name; args; cfg_options cfg]].
Proof. apply ok_call. right. right. exists name. by right. Qed.

Variable exec : heap -> string -> option result.
Hypothesis exec_ok : forall h name c tr h', exec h name = Some (c, tr, h') -> ok tr.

Lemma post_hook_ok fnName h c tr h' :
  post_hook pinefile exec fnName h = Some (c, tr, h') -> ok tr.
Proof using exec_ok.
  unfold post_hook. destruct (resolveTask h pinefile _ ":") as [v h1].
  destruct (truthy v); [apply exec_ok | intros [= _ <- _]; apply ok_nil].
Qed.

Lemma callback_ok name fnName h e c tr h' :
  callback pinefile exec name fnName h e = Some (c, tr, h') -> ok tr.
Proof using exec_ok.
  unfold callback. intros (tr0 & Hpost%post_hook_ok & ->)%prepend_Some.
  repeat apply ok_app; [apply ok_logged | constructor | done].
Qed.

Lemma settle_then_done_ok name fnName h r c tr h' :
  settle_then_done pinefile exec name fnName h r = Some (c, tr, h') -> ok tr.
Proof using exec_ok.
  assert (forall e, float_done pinefile exec name fnName h e = Some (c, tr, h')
                    -> ok tr) as Hfloat.
  { intros e. unfold float_done.
    destruct (callback _ _ _ _ _ _) as [[[c0 body] h0]|] eqn:Hcb; [|discriminate].
    intros [= _ <- _]. apply ok_done. by eapply callback_ok. }
  destruct r as [v|[v|e|]|e]; cbn [settle_then_done]; try apply Hfloat.
  intros [= _ <- _]. apply ok_nil.
Qed.

Lemma run_dones_ok name fnName uses final h c tr h' :
  run_dones pinefile exec name fnName h uses final = Some (c, tr, h') -> ok tr.
Proof using exec_ok.
  revert h c tr h'. induction uses as [|[e awaited] uses IH];
    intros h c tr h'; cbn [run_dones].
  - intros [= _ <- _]. apply ok_nil.
  - destruct (callback _ _ _ _ _ _) as [[[c0 body] h0]|] eqn:Hcb; [|discriminate].
    apply callback_ok in Hcb.
    assert (forall r,
               prepend [EvDone e awaited body] r = Some (c, tr, h') ->
               r = run_dones pinefile exec name fnName h0 uses final ->
               ok tr) as Hgo.
    { intros r (tr0 & Hr & ->)%prepend_Some ->.
      apply ok_app; [by apply ok_done | by eapply IH]. }
    destruct awaited; [destruct c0|]; try (intros Hp; by eapply Hgo);
      intros [= _ <- _]; by apply ok_done.
Qed.

Lemma invoke_ok name fnName h r c tr h' :
  invoke F pinefile args exec name fnName h r = Some (c, tr, h') -> ok tr.
Proof using exec_ok.
  assert (forall v, invoke_value F pinefile exec name fnName h v
                    = Some (c, tr, h') -> ok tr) as Hval.
  { intros v. unfold invoke_value.
    destruct v; try apply settle_then_done_ok.
    destruct (Nat.eqb _ 0).
    - intros (tr0 & Hr%settle_then_done_ok & ->)%prepend_Some.
      apply ok_app; [apply ok_runner | done].
    - intros (tr0 & Hr%run_dones_ok & ->)%prepend_Some.
      apply ok_app; [constructor | done]. }
  destruct r as [v|[v|e|]|fn]; cbn [invoke]; try apply Hval;
    try (intros [= _ <- _]; apply ok_nil).
  unfold invoke_task.
  destruct (task_body F args fn) as [tr0 x] eqn:Hbody.
  intros (tr1 & Hr%settle_then_done_ok & ->)%prepend_Some.
  apply ok_app; [|done].
  unfold task_body, call in Hbody.
  destruct fn; injection Hbody as <- _; try apply ok_nil. apply ok_task.
Qed.

Lemma pre_hook_ok h fnName c tr h' :
  pre_hook pinefile exec h fnName = Some (c, tr, h') -> ok tr.
Proof using exec_ok.
  unfold pre_hook. destruct (resolveTask h pinefile _ ":") as [v h1].
  destruct (truthy v); [apply exec_ok | intros [= _ <- _]; apply ok_nil].
Qed.

Lemma dispatch_ok h fn name tr x :
  dispatch F cfg pinefile args h fn name = (tr, x) -> ok tr.
Proof.
  intros Hd. destruct x as [e|r].
  - revert Hd. unfold dispatch.
    assert (forall xs, engine_arguments cfg pinefile args xs ->
                       produced (call F fn xs) = (tr, inl e) -> ok tr) as Hp.
    { intros xs Hxs. unfold call. destruct fn as [| | | | |f|]; cbn;
        try (intros [= <- _]; apply ok_nil).
      destruct (fn_call (F f) xs); intros [= <-]; by apply ok_call. }
    destruct (declared_length F fn) as [[|[|[|[|[|k]]]]]|]; try discriminate.
    + apply Hp. right. right. eexists. by left.
    + destruct (_ && _); apply Hp; right; right; eexists; [by right | by left].
  - apply dispatch_produced in Hd
      as [[_ ->] | (f & xs & _ & -> & [-> | ->] & _)].
    + apply ok_nil.
    + apply ok_plugin.
    + apply ok_plugin_options.
Qed.

Lemma run_found_ok h name s c tr h' :
  run_found F cfg pinefile args exec h name s = Some (c, tr, h') -> ok tr.
Proof using exec_ok.
  unfold run_found.
  destruct (dispatch _ _ _ _ _ _ _) as [tr_d [e|r]] eqn:Hd;
    apply dispatch_ok in Hd.
  { by intros [= _ <- _]. }
  destruct (pre_hook _ _ _ _) as [[[c0 tr_pre] h0]|] eqn:Hpre; [|discriminate].
  apply pre_hook_ok in Hpre.
  destruct c0; try (intros [= _ <- _]; by apply ok_app).
  intros (tr0 & Hr%invoke_ok & ->)%prepend_Some.
  repeat apply ok_app; try done. constructor.
Qed.

End Arguments.

Lemma execute_calls_ok F cfg pinefile args fuel :
  forall h name c tr h',
    execute F cfg pinefile args fuel h name = Some (c, tr, h') ->
    calls_ok cfg pinefile args tr.
Proof.
  induction fuel as [|n IH]; intros h name c tr h'; [discriminate|].
  cbn [execute].
  destruct (resolveTask h pinefile (KStr name) ":") as [fn0 h1].
  destruct (select F cfg pinefile args h1 fn0 name) as [tr0 x] eqn:Hsel.
  assert (calls_ok cfg pinefile args tr0) as Hsel_ok.
  { apply select_events in Hsel as [-> | (g & _ & ->)];
      [apply ok_nil | apply ok_plugin_options]. }
  destruct x as [e|s]; [by intros [= _ <- _]|].
  destruct (negb (sel_found s)).
  { intros [= _ <- _]. apply ok_app; [done | constructor]. }
  intros (tr1 & Hrun & ->)%prepend_Some.
  apply ok_app; [done|].
  eapply run_found_ok; [|exact Hrun]. exact IH.
Qed.



(** X11. [runTask] without arguments runs with a new, empty argument bag:
    an object that was not in the heap before, that every function is
    called with in place of the arguments, and that is still empty (under
    every key but [default]) when the run is over; the objects that were
    there are kept as by any run. *)
Theorem runTask_without_arguments_makes_an_empty_bag
  (F : fid -> fundef) (cfg : config) (fuel : nat) (h : heap)
  (pinefile : val) (name : string)
  (c : completion) (tr : list event) (h' : heap) :
  runTask F cfg fuel h pinefile name VUndef = Some (c, tr, h') ->
  let bag := VObj (fresh (dom h)) in
  h !! fresh (dom h) = None
  /\ (forall f xs, In (f, xs) (calls tr) -> engine_arguments cfg pinefile bag xs)
  /\ (forall k, k <> "default" -> get_prop h' bag k = VUndef)
  /\ keeps_other_keys h h'.
Proof.
  unfold runTask. cbn [args_or_empty]. intros Hex. cbn zeta.
  assert (h !! fresh (dom h) = None) as Hfresh.
  { apply not_elem_of_dom. apply is_fresh. }
  pose proof (execute_frame _ _ _ _ _ _ _ _ _ _ Hex) as Hframe.
  split; [done|]. split; [|split].
  - intros f xs Hin.
    pose proof (execute_calls_ok _ _ _ _ _ _ _ _ _ _ Hex) as Hok.
    unfold calls_ok in Hok. rewrite Forall_forall in Hok.
    apply (Hok (f, xs)). by apply list_elem_of_In.
  - intros k Hk.
    destruct (Hframe (fresh (dom h)) ∅) as (o' & Hl & Hkeys);
      [apply lookup_insert_eq|].
    cbn [get_prop]. rewrite Hl, (Hkeys k Hk). reflexivity.
  - eapply keeps_other_keys_trans; [|exact Hframe].
    intros l o Hl. exists o. split; [|done].
    rewrite lookup_insert_ne; [done|]. intros <-. congruence.
Qed.

Lemma runTask_without_arguments_witness :
  exists c tr h',
    runTask example_functions (Config VUndef VUndef) 2 ns_build (VObj 1)
      "build" VUndef = Some (c, tr, h')
    /\ ns_build !! fresh (dom ns_build) = None.
Proof.
  destruct (runTask example_functions (Config VUndef VUndef) 2 ns_build
              (VObj 1) "build" VUndef)
    as [[[c tr] h']|] eqn:Hrun; [|vm_compute in Hrun; discriminate].
  exists c, tr, h'. split; [reflexivity|].
  exact (proj1 (runTask_without_arguments_makes_an_empty_bag _ _ _ _ _ _
                  _ _ _ Hrun)).
Defined.

(* ------------------------------------------------------------------ *)
(** * The configuration store *)

Section ConfigStoreProperties.

Import ConfigStore.

Variable path_join : string -> string -> string.
Variable dotenv_config : string -> gmap string string -> gmap string string.
Variable toUpperCase : string -> string.

Lemma omap_holes {A B} (f : option A -> option B) (l : list (option A)) :
  f None = None -> omap f (map (fun _ => None) l) = [].
Proof. intros Hf. induction l as [|x l IH]; [done|]. cbn. by rewrite Hf. Qed.

Lemma merged_keeps_dotenv (a : argument) (c : t) :
  keeps_dotenv a -> dotenv (merged a c) = dotenv c.
Proof.
  unfold merged. destruct a as [p|f|]; cbn [keeps_dotenv]; [| |done].
  - intros Hp. cbn. by rewrite Hp.
  - intros Hf. destruct (f c) as [p|] eqn:Hfc; [|done].
    cbn. by rewrite (Hf _ _ Hfc).
Qed.

(** X12. [configure] hands each file of [dotenv] to the loader once: the
    files loaded are the entries of the merged [dotenv] that are still
    there, joined with the path; when [configure] returns, none is left;
    and a later [configure] that does not set [dotenv] loads nothing. *)
Theorem configure_loads_each_file_once
  (newConfig : argument) (st st' : state) (c : t) (loaded : list string) :
  configure path_join dotenv_config toUpperCase newConfig st
  = (Returns c, st', loaded) ->
  loaded = files_to_load path_join (merged newConfig (config st))
  /\ getConfig st' = c
  /\ files_to_load path_join c = []
  /\ forall (next : argument) (out : outcome) (st'' : state)
            (loaded' : list string),
       keeps_dotenv next ->
       configure path_join dotenv_config toUpperCase next st'
       = (out, st'', loaded') ->
       loaded' = [].
Proof.
  unfold configure, loadDotenv.
  set (m := merged newConfig (config st)).
  destruct (dotenv m) as [files|] eqn:Hd.
  - destruct (_ && _); [discriminate|].
    intros [= <- <- <-]. cbn [getConfig config].
    assert (forall c', dotenv c' = DotenvArray (map (fun _ => None) files) ->
                       files_to_load path_join c' = []) as Hnone.
    { intros c' Hc'. unfold files_to_load. rewrite Hc'. by apply omap_holes. }
    split; [done|]. split; [done|]. split; [by apply Hnone|].
    intros next out st'' loaded' Hnext.
    set (m' := merged next _).
    assert (dotenv m' = DotenvArray (map (fun _ => None) files)) as Hd'
      by by (unfold m'; rewrite merged_keeps_dotenv).
    rewrite Hd'. destruct (_ && _); [by intros [= _ _ <-]|].
    intros [= _ _ <-]. by apply Hnone.
  - intros [= <- <- <-]. cbn [getConfig config].
    assert (files_to_load path_join m = []) as Hm
      by (unfold files_to_load; by rewrite Hd).
    split; [by rewrite Hm|]. split; [done|]. split; [done|].
    intros next out st'' loaded' Hnext.
    set (m' := merged next _).
    assert (dotenv m' = DotenvOther) as Hd'
      by by (unfold m'; rewrite merged_keeps_dotenv).
    rewrite Hd'. by intros [= _ _ <-].
Qed.

(** X13. [configure] throws exactly when, after the merge, [path] is
    empty and [dotenv] is an array that is not empty, holes included
    (so also when every file in it has been loaded already).  The error
    is ["Config path shouldn't be empty"]; the module variable has taken
    the merged configuration all the same, while [process.env] is
    untouched and no file is loaded. *)
Theorem configure_throws_exactly_on_an_empty_path
  (newConfig : argument) (st : state) :
  let m := merged newConfig (config st) in
  (forall files,
      path m = "" -> dotenv m = DotenvArray files -> files <> [] ->
      configure path_join dotenv_config toUpperCase newConfig st
      = (Throws "Config path shouldn't be empty",
         State m (process_env st), []))
  /\ (forall msg st' loaded,
         configure path_join dotenv_config toUpperCase newConfig st
         = (Throws msg, st', loaded) ->
         path m = ""
         /\ exists files, dotenv m = DotenvArray files /\ files <> []).
Proof.
  cbn zeta. unfold configure, loadDotenv.
  set (m := merged newConfig (config st)). split.
  - intros files Hpath Hd Hne. rewrite Hd, Hpath.
    destruct files; [done|]. reflexivity.
  - intros msg st' loaded.
    destruct (dotenv m) as [files|]; [|discriminate].
    destruct (String.eqb_spec (path m) "") as [Hpath|]; [|discriminate].
    destruct files; [discriminate|]. intros _. split; [done|].
    eexists. split; [reflexivity | discriminate].
Qed.

End ConfigStoreProperties.

Lemma configure_loads_each_file_once_witness :
  let join := fun dir file : string => dir +:+ "/" +:+ file in
  let st :=
    ConfigStore.State
      (ConfigStore.Make (ConfigStore.DotenvArray []) (ConfigStore.EnvObject [])
         "" ∅) ∅ in
  let newConfig :=
    ConfigStore.ArgObject
      (ConfigStore.Partial
         (Some (ConfigStore.DotenvArray [Some ".env"; Some ".env.local"]))
         None (Some "/project") ∅) in
  exists c st' loaded,
    ConfigStore.configure join (fun _ e => e) (fun s => s) newConfig st
    = (ConfigStore.Returns c, st', loaded)
    /\ loaded = ["/project/.env"; "/project/.env.local"]
    /\ ConfigStore.files_to_load join c = [].
Proof.
  cbn zeta.
  destruct (ConfigStore.configure _ _ _ _ _) as [[[msg|c] st'] loaded] eqn:Hc;
    [vm_compute in Hc; discriminate|].
  exists c, st', loaded. split; [reflexivity|].
  pose proof (configure_loads_each_file_once _ _ _ _ _ _ _ _ Hc)
    as (Hloaded & _ & Hnone & _).
  split; [|exact Hnone]. rewrite Hloaded. reflexivity.
Defined.

Lemma configure_throws_witness :
  let st :=
    ConfigStore.State
      (ConfigStore.Make (ConfigStore.DotenvArray []) (ConfigStore.EnvObject [])
         "/project" ∅) ∅ in
  let newConfig :=
    ConfigStore.ArgObject
      (ConfigStore.Partial (Some (ConfigStore.DotenvArray [None])) None
         (Some "") ∅) in
  ConfigStore.configure (fun dir file => dir +:+ "/" +:+ file)
    (fun _ e => e) (fun s => s) newConfig st
  = (ConfigStore.Throws "Config path shouldn't be empty",
     ConfigStore.State
       (ConfigStore.merged newConfig (ConfigStore.config st))
       (ConfigStore.process_env st), []).
Proof.
  cbn zeta.
  apply (proj1 (configure_throws_exactly_on_an_empty_path _ _ _ _ _) [None]);
    [reflexivity | reflexivity | discriminate].
Defined.

(* ------------------------------------------------------------------ *)
(** ** [setEnvironment] *)

Section SetEnvironment.

Import ConfigStore.

Variable toUpperCase : string -> string.

Lemma set_variable_lookup (penv : gmap string string) (k v V : string) :
  set_variable toUpperCase penv (k, v) !! V = penv !! V
  \/ (penv !! k = None /\ toUpperCase k = V
      /\ set_variable toUpperCase penv (k, v) !! V = Some v).
Proof.
  unfold set_variable. cbn [fst snd].
  destruct (penv !! k) eqn:Hk; [by left|].
  destruct (decide (toUpperCase k = V)) as [<-|Hne].
  - right. by rewrite lookup_insert_eq.
  - left. by rewrite lookup_insert_ne.
Qed.

Lemma fold_set_variable_lookup (entries : list (string * string))
    (penv : gmap string string) (V : string) :
  fold_left (set_variable toUpperCase) entries penv !! V = penv !! V
  \/ exists k v,
       In (k, v) entries /\ toUpperCase k = V
       /\ fold_left (set_variable toUpperCase) entries penv !! V = Some v.
Proof.
  revert penv. induction entries as [|[k v] entries IH]; intros penv;
    [by left|].
  cbn [fold_left].
  destruct (IH (set_variable toUpperCase penv (k, v)))
    as [Hsame | (k' & v' & Hin & Hup & Hv)].
  - destruct (set_variable_lookup penv k v V) as [Hstep | (_ & Hup & Hstep)].
    + left. by rewrite Hsame.
    + right. exists k, v. split; [by left|]. split; [done|]. by rewrite Hsame.
  - right. exists k', v'. split; [by right | done].
Qed.

Lemma fold_set_variable_keeps (entries : list (string * string))
    (penv : gmap string string) (V : string) :
  is_Some (penv !! V) ->
  is_Some (fold_left (set_variable toUpperCase) entries penv !! V).
Proof.
  revert penv. induction entries as [|[k v] entries IH]; intros penv HV;
    [done|].
  cbn [fold_left]. apply IH.
  destruct (set_variable_lookup penv k v V) as [-> | (_ & _ & ->)]; eauto.
Qed.

(** X14. [setEnvironment] removes no variable, and changes the value of
    a variable only by giving it the value of an entry of [env] whose
    name, in upper case, is the name of the variable. *)
Theorem setEnvironment_only_writes_upper_cased_names
  (c : t) (penv : gmap string string) (V : string) :
  let penv' := setEnvironment toUpperCase c penv in
  (is_Some (penv !! V) -> is_Some (penv' !! V))
  /\ (penv' !! V = penv !! V
      \/ exists entries k v,
           env c = EnvObject entries /\ In (k, v) entries
           /\ toUpperCase k = V /\ penv' !! V = Some v).
Proof.
  cbn zeta. unfold setEnvironment.
  destruct (env c) as [entries|]; [|by split; [|left]].
  split; [apply fold_set_variable_keeps|].
  destruct (fold_set_variable_lookup entries penv V)
    as [Hsame | (k & v & Hin & Hup & Hv)]; [by left|].
  right. by exists entries, k, v.
Qed.

(** X15. When the names in [env] are in upper case already,
    [setEnvironment] gives the variables that are missing the value of
    their (first) entry and overwrites none: [process.env] becomes its
    union with [env], [process.env] first. *)
Theorem setEnvironment_fills_in_upper_case_names
  (c : t) (entries : list (string * string)) (penv : gmap string string) :
  env c = EnvObject entries ->
  (forall k v, In (k, v) entries -> toUpperCase k = k) ->
  setEnvironment toUpperCase c penv = penv ∪ list_to_map entries.
Proof.
  intros Henv Hupper. unfold setEnvironment. rewrite Henv. clear Henv.
  revert penv. induction entries as [|[k v] entries IH]; intros penv.
  - cbn. by rewrite map_union_empty.
  - cbn [fold_left list_to_map foldr]. rewrite IH
      by (intros k' v' Hin; apply (Hupper k' v'); by right).
    unfold set_variable. cbn [fst snd uncurry].
    rewrite (Hupper k v) by by left.
    destruct (penv !! k) as [x|] eqn:Hk.
    + apply map_eq. intros V. rewrite !lookup_union.
      destruct (decide (k = V)) as [<-|Hne].
      * rewrite Hk, lookup_insert_eq.
        by destruct (list_to_map entries !! k).
      * by rewrite lookup_insert_ne.
    + rewrite <- insert_union_l. by rewrite insert_union_r.
Qed.

(** X16. [setEnvironment] looks a name up as it is written in [env] and
    writes it in upper case: the last entry of [env], when its own name
    is not a variable and not the upper-case form of an earlier entry,
    sets the variable of its upper-case name, whatever value that
    variable had. *)
Theorem setEnvironment_overwrites_across_case
  (c : t) (init : list (string * string)) (k v : string)
  (penv : gmap string string) :
  env c = EnvObject (init ++ [(k, v)]) ->
  penv !! k = None ->
  (forall k' v', In (k', v') init -> toUpperCase k' <> k) ->
  setEnvironment toUpperCase c penv !! toUpperCase k = Some v.
Proof.
  intros Henv Hk Hinit. unfold setEnvironment. rewrite Henv.
  rewrite fold_left_app. cbn [fold_left]. unfold set_variable at 1.
  cbn [fst snd].
  destruct (fold_set_variable_lookup init penv k)
    as [-> | (k' & v' & Hin & Hup & _)].
  - rewrite Hk. apply lookup_insert_eq.
  - by apply Hinit in Hin.
Qed.

End SetEnvironment.

Lemma setEnvironment_fills_in_witness :
  ConfigStore.setEnvironment upper_ascii
    (ConfigStore.Make ConfigStore.DotenvOther
       (ConfigStore.EnvObject [("NODE_ENV", "test"); ("PORT", "80")]) "" ∅)
    {[ "NODE_ENV" := "production" ]}
  = {[ "NODE_ENV" := "production" ]}
    ∪ list_to_map [("NODE_ENV", "test"); ("PORT", "80")].
Proof.
  apply (setEnvironment_fills_in_upper_case_names upper_ascii _
           [("NODE_ENV", "test"); ("PORT", "80")]); [reflexivity|].
  intros k v [[= <- <-]|[[= <- <-]|[]]]; reflexivity.
Defined.

Lemma setEnvironment_overwrites_witness :
  ({[ "NODE_ENV" := "production" ]} : gmap string string) !! "node_env" = None
  /\ ConfigStore.setEnvironment upper_ascii
       (ConfigStore.Make ConfigStore.DotenvOther
          (ConfigStore.EnvObject [("node_env", "test")]) "" ∅)
       {[ "NODE_ENV" := "production" ]} !! "NODE_ENV" = Some "test".
Proof.
  split; [reflexivity|].
  apply (setEnvironment_overwrites_across_case upper_ascii _ [] "node_env"
           "test"); [reflexivity | reflexivity | intros k' v' []].
Defined.

(* ------------------------------------------------------------------ *)
(** * The registries of the companion module *)

Section Registries.

Import Legacy.

Lemma unique_into_NoDup (xs acc : list string) :
  NoDup acc -> NoDup (fold_left add_new xs acc).
Proof.
  revert acc. induction xs as [|x xs IH]; intros acc Hacc; [done|].
  cbn [fold_left]. apply IH. unfold add_new.
  destruct (decide (x ∈ acc)) as [Hin|Hnin]; [done|].
  apply NoDup_app. split; [done|]. split.
  - intros y Hy ->%list_elem_of_singleton. done.
  - apply NoDup_singleton.
Qed.

Lemma unique_into_elem (xs acc : list string) (y : string) :
  y ∈ fold_left add_new xs acc <-> y ∈ acc \/ y ∈ xs.
Proof.
  revert acc. induction xs as [|x xs IH]; intros acc.
  - cbn. split; [by left|]. intros [?|Hy]; [done|]. by apply not_elem_of_nil in Hy.
  - cbn [fold_left]. rewrite IH. unfold add_new.
    destruct (decide (x ∈ acc)) as [Hin|Hnin].
    + rewrite elem_of_cons. split; [tauto|].
      intros [?|[->|?]]; auto.
    + rewrite elem_of_app, list_elem_of_singleton, elem_of_cons. tauto.
Qed.


Lemma unique_into_id (xs acc : list string) :
  NoDup (acc ++ xs) -> fold_left add_new xs acc = acc ++ xs.
Proof.
  revert acc. induction xs as [|x xs IH]; intros acc Hnd.
  - by rewrite app_nil_r.
  - cbn [fold_left]. unfold add_new.
    apply NoDup_app in Hnd as (Hacc & Hdisj & Hxs).
    destruct (decide (x ∈ acc)) as [Hin|Hnin].
    { exfalso. apply (Hdisj x Hin). by left. }
    rewrite IH; [by rewrite <- app_assoc|].
    rewrite <- app_assoc. apply NoDup_app. split; [done|]. split; [|done].
    exact Hdisj.
Qed.

Lemma unique_NoDup (xs : list string) : NoDup (unique xs).
Proof. apply unique_into_NoDup. constructor. Qed.

Lemma unique_of_NoDup (xs : list string) : NoDup xs -> unique xs = xs.
Proof. intros Hnd. unfold unique. by rewrite unique_into_id. Qed.

Lemma unique_app (xs ys : list string) :
  unique (unique xs ++ ys) = unique (xs ++ ys).
Proof.
  unfold unique at 1 3. rewrite !fold_left_app.
  fold (unique (unique xs)) (unique xs).
  by rewrite unique_of_NoDup by apply unique_NoDup.
Qed.

Lemma register_lookup_eq reg name names :
  register reg name names !! name
  = Some (unique (default [] (reg !! name) ++ names)).
Proof. unfold register. apply lookup_insert_eq. Qed.

Lemma register_register reg name xs ys :
  register (register reg name xs) name ys = register reg name (xs ++ ys).
Proof.
  unfold register at 1. rewrite register_lookup_eq. cbn [default].
  unfold register. rewrite insert_insert_eq. unfold id.
  by rewrite unique_app, app_assoc.
Qed.

Lemma register_NoDup reg name names :
  (forall k l, reg !! k = Some l -> NoDup l) ->
  forall k l, register reg name names !! k = Some l -> NoDup l.
Proof.
  intros Hreg k l. unfold register.
  destruct (decide (name = k)) as [->|Hne].
  - rewrite lookup_insert_eq. intros [= <-]. apply unique_NoDup.
  - rewrite lookup_insert_ne by done. apply Hreg.
Qed.

(** X17. The registries never hold a name twice: they are free of
    duplicates when the module is loaded, and [before] and [after] keep
    them so, whatever is registered and how often. *)
Theorem registries_stay_duplicate_free
  (name : string) (names : list string) (st : registries) :
  duplicate_free empty
  /\ (duplicate_free st -> duplicate_free (before name names st))
  /\ (duplicate_free st -> duplicate_free (after name names st)).
Proof.
  split; [|split].
  - split; intros k l; cbn; by rewrite lookup_empty.
  - intros [Hb Ha]. split; [|done]. cbn. by apply register_NoDup.
  - intros [Hb Ha]. split; [done|]. cbn. by apply register_NoDup.
Qed.


(** X19. Registering in two calls is registering at once, and
    registering the same names again changes nothing; so for [before],
    and so for [after]. *)
Theorem registering_twice
  (name : string) (xs ys : list string) (st : registries) :
  before name ys (before name xs st) = before name (xs ++ ys) st
  /\ before name xs (before name xs st) = before name xs st
  /\ after name ys (after name xs st) = after name (xs ++ ys) st
  /\ after name xs (after name xs st) = after name xs st.
Proof.
  assert (forall reg, register (register reg name xs) name xs
                      = register reg name xs) as Hidem.
  { intros reg. rewrite register_register. unfold register. f_equal.
    rewrite app_assoc, <- unique_app.
    unfold unique at 1. rewrite fold_left_app.
    fold (unique (unique (default [] (reg !! name) ++ xs))).
    rewrite unique_of_NoDup by apply unique_NoDup.
    assert (forall acc, (forall x, x ∈ xs -> x ∈ acc) ->
                        fold_left add_new xs acc = acc) as Hsub.
    { clear. induction xs as [|x xs IH]; intros acc Hacc; [done|].
      cbn [fold_left]. unfold add_new at 2.
      destruct (decide (x ∈ acc)) as [_|Hnin].
      - apply IH. intros y Hy. apply Hacc. by right.
      - exfalso. apply Hnin, Hacc. by left. }
    apply Hsub. intros x Hx. unfold unique.
    rewrite unique_into_elem, elem_of_app. auto. }
  unfold before, after. cbn.
  repeat split; f_equal; auto using register_register.
Qed.

End Registries.


Lemma registries_stay_duplicate_free_witness :
  Legacy.duplicate_free
    (Legacy.after "build" ["publish"; "log"; "publish"]
       (Legacy.before "build" ["compile"; "compile"] Legacy.empty)).
Proof.
  apply (proj2 (proj2 (registries_stay_duplicate_free "build"
                         ["publish"; "log"; "publish"] _))).
  apply (proj1 (proj2 (registries_stay_duplicate_free "build"
                         ["compile"; "compile"] _))).
  apply (proj1 (registries_stay_duplicate_free "build" [] Legacy.empty)).
Defined.

Lemma setEnvironment_only_writes_witness :
  is_Some (({[ "NODE_ENV" := "production" ]} : gmap string string) !! "NODE_ENV")
  /\ is_Some
       (ConfigStore.setEnvironment upper_ascii
          (ConfigStore.Make ConfigStore.DotenvOther
             (ConfigStore.EnvObject [("node_env", "test")]) "" ∅)
          {[ "NODE_ENV" := "production" ]} !! "NODE_ENV").
Proof.
  assert (is_Some (({[ "NODE_ENV" := "production" ]} : gmap string string)
                     !! "NODE_ENV")) as H by (vm_compute; eauto).
  split; [exact H|].
  exact (proj1 (setEnvironment_only_writes_upper_cased_names upper_ascii
                  _ _ "NODE_ENV") H).
Defined.

(* ------------------------------------------------------------------ *)
(** * Further properties of resolution and of hooks *)

(** X20. What [resolveTask] returns can be tested for truth: it is
    [false], or it is truthy (a function, a mapping, or the truthy [_]
    entry of a mapping); no other falsy value comes back, whatever the
    namespace holds. *)
Theorem resolveTask_is_false_or_truthy
  (h : heap) (obj : val) (k : key) (sep : string) :
  fst (resolveTask h obj k sep) = VBool false
  \/ truthy (fst (resolveTask h obj k sep)) = true.
Proof.
  rewrite resolveTask_returns. cbn zeta.
  destruct (key_falsy k); [by left|].
  destruct (walk h obj (segments k sep)) as [| | | | |f|l] eqn:Hwalk;
    cbn [is_function isObject]; try (by left); [by right|].
  destruct (truthy (get_prop h (VObj l) "_")) eqn:Hunder; by right.
Qed.





